(** * MoonGen software rate limiter: [src/rate_limiter.cpp]

    The two worker loops of namespace [rate_limiter] are embedded as
    input/output automata.  A state holds the C locals of the loop plus a
    program point; one step performs exactly one external call
    ([ring_dequeue], [rte_get_tsc_cycles] or [rte_eth_tx_burst]), takes the
    value the callee returned and runs the C code up to the next external
    call.  The callee's answers are arbitrary: every theorem quantifies
    over all of them, restricted only by the contracts stated as
    hypotheses. *)

From Stdlib Require Import ZArith List Lia Bool.
From Stdlib Require Import Floats.SpecFloat.
Import ListNotations.
Local Open Scope Z_scope.

(** ** Machine integers and the batch array *)

(** [constexpr int batch_size = 64;] *)
Definition batch_size : Z := 64.

Definition wrap16 (z : Z) : Z := z mod 2 ^ 16.
Definition wrap32 (z : Z) : Z := z mod 2 ^ 32.
Definition wrap64 (z : Z) : Z := z mod 2 ^ 64.

(** [struct rte_mbuf*]: an opaque packet handle (the pointer value). *)
Definition mbuf : Type := Z.

(** [bufs + off] read for [n] entries. *)
Definition slice (bufs : list mbuf) (off n : Z) : list mbuf :=
  firstn (Z.to_nat n) (skipn (Z.to_nat off) bufs).

(** ** External calls

    A [response] is what the callee hands back; an [event] is the record
    of one completed call, arguments included.  [device] and [queue] are
    passed through unchanged by both loops and are left out. *)

Inductive response : Type :=
| RDequeue (rc : Z) (objs : list mbuf)
    (* ring_dequeue: return code, and the handles stored when rc = 0 *)
| RTsc (cur : Z)
    (* rte_get_tsc_cycles *)
| RTx (nb_tx : Z).
    (* rte_eth_tx_burst: number of packets accepted *)

Inductive event : Type :=
| EDequeue (rc : Z) (objs : list mbuf)
| ETsc (cur : Z)
| ETx (off nb_pkts : Z) (pkts : list mbuf) (nb_tx : Z).
    (* rte_eth_tx_burst (device, queue, bufs + off, nb_pkts) = nb_tx,
       pkts being the nb_pkts handles found at bufs + off *)

Definition is_tx (e : event) : bool :=
  match e with ETx _ _ _ _ => true | _ => false end.

(** Handles the sink took ownership of in one call: the first [nb_tx]. *)
Definition taken (e : event) : list mbuf :=
  match e with
  | ETx _ _ pkts nb_tx => firstn (Z.to_nat nb_tx) pkts
  | _ => []
  end.

(** All handles handed over to the sink, in transmission order. *)
Definition accepted (tr : list event) : list mbuf := flat_map taken tr.

(** Contracts of the collaborators. *)
Definition tx_contract (e : event) : Prop :=
  match e with
  | ETx _ nb_pkts _ nb_tx => 0 <= nb_tx <= nb_pkts
  | _ => True
  end.

Definition ring_contract (e : event) : Prop :=
  match e with
  | EDequeue rc objs => rc = 0 -> Z.of_nat (length objs) = batch_size
  | _ => True
  end.

Definition tsc_contract (e : event) : Prop :=
  match e with
  | ETsc cur => 0 <= cur < 2 ^ 64
  | _ => True
  end.

Definition none_ready (e : event) : Prop :=
  match e with
  | EDequeue rc _ => rc <> 0
  | _ => True
  end.

(** ** Running an automaton over a list of answers *)

Section Machine.
Context {State : Type}.
Variable step : State -> response -> option (State * event).

Fixpoint run (s : State) (rs : list response) : option (State * list event) :=
  match rs with
  | [] => Some (s, [])
  | r :: rs' =>
      match step s r with
      | None => None
      | Some (s1, e) =>
          match run s1 rs' with
          | None => None
          | Some (s2, tr) => Some (s2, e :: tr)
          end
      end
  end.
End Machine.

(** ** [main_loop]: best-effort draining (lines 15-26) *)

Inductive drain_pc : Type :=
| DrainDequeue  (* line 18, about to call ring_dequeue *)
| DrainTx.      (* line 22, about to call rte_eth_tx_burst *)

Record drain_state : Type := mkDrain {
  d_pc : drain_pc;
  d_bufs : list mbuf;   (* struct rte_mbuf* bufs[batch_size] *)
  d_sent : Z            (* uint32_t sent; keeps its last value once the
                           inner loop is left *)
}.

(** Head of [while (sent < batch_size)], line 21. *)
Definition drain_while (bufs : list mbuf) (sent : Z) : drain_state :=
  if sent <? batch_size then mkDrain DrainTx bufs sent
  else mkDrain DrainDequeue bufs sent.

Definition drain_step (s : drain_state) (r : response)
  : option (drain_state * event) :=
  match d_pc s, r with
  | DrainDequeue, RDequeue rc objs =>
      (* int rc = ring_dequeue(ring, bufs, batch_size); if (rc == 0) *)
      if rc =? 0
      then Some (drain_while objs 0, EDequeue rc objs)
      else Some (mkDrain DrainDequeue (d_bufs s) (d_sent s), EDequeue rc objs)
  | DrainTx, RTx nb_tx =>
      (* sent += rte_eth_tx_burst(device, queue, bufs + sent, batch_size - sent); *)
      let nb_pkts := wrap16 (wrap32 (batch_size - d_sent s)) in
      Some (drain_while (d_bufs s) (wrap32 (d_sent s + nb_tx)),
            ETx (d_sent s) nb_pkts (slice (d_bufs s) (d_sent s) nb_pkts) nb_tx)
  | _, _ => None
  end.

Definition drain_init (bufs0 : list mbuf) : drain_state :=
  mkDrain DrainDequeue bufs0 0.

Definition main_loop (bufs0 : list mbuf) (rs : list response)
  : option (drain_state * list event) :=
  run drain_step (drain_init bufs0) rs.

(** ** [main_loop_cbr]: constant-rate pacing (lines 28-49) *)

(** *** IEEE-754 binary64, for the interval computation of line 30 *)

Definition prec : Z := 53.
Definition emax : Z := 1024.

Definition double : Type := spec_float.

(** Integer to [double] conversion, round to nearest even. *)
Definition double_of_Z (z : Z) : double := binary_normalize prec emax z 0 false.

Definition double_div (x y : double) : double := SFdiv prec emax x y.

(** The literal [1000000000.0]. *)
Definition billion : double := double_of_Z 1000000000.

(** [(uint64_t) x]: truncation toward zero; undefined ([None]) when the
    truncated value does not fit. *)
Definition uint64_of_double (x : double) : option Z :=
  match x with
  | S754_zero _ => Some 0
  | S754_finite sx m e =>
      let v := Z.shiftl (Zpos m) e in
      if sx then (if v =? 0 then Some 0 else None)
      else if v <? 2 ^ 64 then Some v else None
  | _ => None
  end.

(** [uint64_t id_cycles = (uint64_t) (target / (1000000000.0 / ((double) tsc_hz)));] *)
Definition id_cycles_of (tsc_hz target : Z) : option Z :=
  uint64_of_double
    (double_div (double_of_Z target) (double_div billion (double_of_Z tsc_hz))).

(** *** The loop *)

Inductive cbr_pc : Type :=
| CbrDequeue  (* line 34, about to call ring_dequeue *)
| CbrStamp    (* line 35, about to read the counter *)
| CbrSpin     (* line 43, about to read the counter in the busy-wait *)
| CbrTx.      (* line 45, about to call rte_eth_tx_burst *)

Record cbr_state : Type := mkCbr {
  c_pc : cbr_pc;
  c_tsc_hz : Z;        (* uint64_t tsc_hz *)
  c_id_cycles : Z;     (* uint64_t id_cycles *)
  c_next_send : Z;     (* uint64_t next_send *)
  c_rc : Z;            (* int rc *)
  c_cur : Z;           (* uint64_t cur *)
  c_bufs : list mbuf;  (* struct rte_mbuf* bufs[batch_size] *)
  c_sent : Z           (* uint32_t sent; keeps its last value once the
                          inner loop is left *)
}.

(** Head of [while (sent < batch_size)], line 42. *)
Definition cbr_while (s : cbr_state) (next_send cur sent : Z) : cbr_state :=
  mkCbr (if sent <? batch_size then CbrSpin else CbrDequeue)
        (c_tsc_hz s) (c_id_cycles s) next_send (c_rc s) cur (c_bufs s) sent.

(** The test of line 37, in [uint64_t] arithmetic. *)
Definition idle_gap (tsc_hz next_send cur : Z) : bool :=
  tsc_hz / 100 <? wrap64 (cur - next_send).

Definition cbr_step (s : cbr_state) (r : response)
  : option (cbr_state * event) :=
  match c_pc s, r with
  | CbrDequeue, RDequeue rc objs =>
      (* int rc = ring_dequeue(ring, bufs, batch_size); *)
      Some (mkCbr CbrStamp (c_tsc_hz s) (c_id_cycles s) (c_next_send s) rc
                  (c_cur s) (if rc =? 0 then objs else c_bufs s) (c_sent s),
            EDequeue rc objs)
  | CbrStamp, RTsc cur =>
      (* uint64_t cur = rte_get_tsc_cycles();
         if (cur - next_send > tsc_hz / 100) next_send = cur; *)
      let next_send :=
        if idle_gap (c_tsc_hz s) (c_next_send s) cur then cur
        else c_next_send s in
      (* if (rc == 0) { uint32_t sent = 0; while ... *)
      if c_rc s =? 0
      then Some (cbr_while s next_send cur 0, ETsc cur)
      else Some (mkCbr CbrDequeue (c_tsc_hz s) (c_id_cycles s) next_send
                       (c_rc s) cur (c_bufs s) (c_sent s),
                 ETsc cur)
  | CbrSpin, RTsc cur =>
      (* while ((cur = rte_get_tsc_cycles()) < next_send);
         next_send += id_cycles; *)
      if cur <? c_next_send s
      then Some (mkCbr CbrSpin (c_tsc_hz s) (c_id_cycles s) (c_next_send s)
                       (c_rc s) cur (c_bufs s) (c_sent s),
                 ETsc cur)
      else Some (mkCbr CbrTx (c_tsc_hz s) (c_id_cycles s)
                       (wrap64 (c_next_send s + c_id_cycles s))
                       (c_rc s) cur (c_bufs s) (c_sent s),
                 ETsc cur)
  | CbrTx, RTx nb_tx =>
      (* sent += rte_eth_tx_burst(device, queue, bufs + sent, 1); *)
      Some (cbr_while s (c_next_send s) (c_cur s) (wrap32 (c_sent s + nb_tx)),
            ETx (c_sent s) 1 (slice (c_bufs s) (c_sent s) 1) nb_tx)
  | _, _ => None
  end.

(** Entry of [main_loop_cbr]: [tsc_hz] is what [rte_get_tsc_hz] returned,
    [bufs0] the uninitialised content of the array. *)
Definition cbr_init (tsc_hz target : Z) (bufs0 : list mbuf) : option cbr_state :=
  match id_cycles_of tsc_hz target with
  | Some id_cycles => Some (mkCbr CbrDequeue tsc_hz id_cycles 0 0 0 bufs0 0)
  | None => None
  end.

Definition main_loop_cbr (tsc_hz target : Z) (bufs0 : list mbuf)
    (rs : list response) : option (cbr_state * list event) :=
  match cbr_init tsc_hz target bufs0 with
  | Some s0 => run cbr_step s0 rs
  | None => None
  end.

(** ** Statements used below *)

(** "Each retry passes exactly the unsent suffix": the call made after
    the calls of [tr1] starts at the first handle not yet taken. *)
Definition offers_unsent_suffix (B : list mbuf) (tr : list event) : Prop :=
  forall tr1 off nb_pkts pkts nb_tx tr2,
    tr = tr1 ++ ETx off nb_pkts pkts nb_tx :: tr2 ->
    off = Z.of_nat (length (accepted tr1)) /\
    nb_pkts = batch_size - off /\
    pkts = skipn (length (accepted tr1)) B.

Definition sum (ns : list Z) : Z := fold_right Z.add 0 ns.

(** A transmit call stays inside [bufs[0 .. batch_size)]. *)
Definition tx_in_bounds (e : event) : Prop :=
  match e with
  | ETx off nb_pkts _ _ => 0 <= off /\ 0 < nb_pkts /\ off + nb_pkts <= batch_size
  | _ => True
  end.

(** Invariant of the paced loop along any execution whose counter reads
    are 64-bit values and whose successful dequeues fill the array. *)
Definition cbr_inv (s : cbr_state) : Prop :=
  0 <= c_next_send s < 2 ^ 64 /\
  0 <= c_id_cycles s < 2 ^ 64 /\
  (c_pc s = CbrSpin \/ c_pc s = CbrTx ->
     0 <= c_sent s < batch_size /\
     Z.of_nat (length (c_bufs s)) = batch_size) /\
  (c_pc s = CbrStamp -> c_rc s = 0 ->
     Z.of_nat (length (c_bufs s)) = batch_size).

Definition env_contract (e : event) : Prop :=
  tsc_contract e /\ ring_contract e.

(** The step of line 38: the counter read at the top of an iteration
    makes the test of line 37 true. *)
Definition is_reset (s : cbr_state) (r : response) : Prop :=
  c_pc s = CbrStamp /\
  exists cur, r = RTsc cur /\ idle_gap (c_tsc_hz s) (c_next_send s) cur = true.

(** "next_send never decreases, the reset apart", over every step of
    every execution. *)
Definition next_send_monotone_except_reset : Prop :=
  forall tsc_hz target bufs0 rs s tr r s' e,
    main_loop_cbr tsc_hz target bufs0 rs = Some (s, tr) ->
    cbr_step s r = Some (s', e) ->
    Forall env_contract (tr ++ [e]) ->
    c_next_send s <= c_next_send s' \/ is_reset s r.

Definition is_dequeue (e : event) : bool :=
  match e with EDequeue _ _ => true | _ => false end.

(** "A rejected packet is never resubmitted": once a one-packet call at
    offset [off] returned 0, no later call for the same batch is made at
    that offset. *)
Definition rejected_packet_never_resubmitted : Prop :=
  forall tsc_hz target bufs0 rs s tr,
    main_loop_cbr tsc_hz target bufs0 rs = Some (s, tr) ->
    forall tr1 off pkts tr2 off' pkts' nb_tx',
      tr = tr1 ++ ETx off 1 pkts 0 :: tr2 ->
      forallb (fun e => negb (is_dequeue e)) tr2 = true ->
      In (ETx off' 1 pkts' nb_tx') tr2 ->
      off' <> off.

(** The busy-wait for a packet begins in [s0], reached by the answers
    [rs0] with trace [tr0]: [s0] is in the spin loop of line 43 and was
    entered from outside it, by the counter read of line 35 or by the
    transmit call of the previous packet. *)
Definition wait_begins_at (tsc_hz target : Z) (bufs0 : list mbuf)
    (rs0 : list response) (s0 : cbr_state) (tr0 : list event) : Prop :=
  main_loop_cbr tsc_hz target bufs0 rs0 = Some (s0, tr0) /\
  c_pc s0 = CbrSpin /\
  exists rs' r s_prev tr',
    rs0 = rs' ++ [r] /\
    main_loop_cbr tsc_hz target bufs0 rs' = Some (s_prev, tr') /\
    c_pc s_prev <> CbrSpin.

(** The calls [tr1] made before a transmit call end with a busy-wait
    that began with schedule [c_next_send s0], read the counter below
    that schedule any number of times ([waits]) and then once at or
    above it ([cur]). *)
Definition sent_on_schedule (tsc_hz target : Z) (bufs0 : list mbuf)
    (tr1 : list event) : Prop :=
  exists rs0 s0 tr0 waits cur,
    wait_begins_at tsc_hz target bufs0 rs0 s0 tr0 /\
    tr1 = tr0 ++ map ETsc waits ++ [ETsc cur] /\
    Forall (fun c => c < c_next_send s0) waits /\
    c_next_send s0 <= cur.

(** The call just completed was a transmit call. *)
Definition last_is_tx (tr : list event) : Prop :=
  exists tr' off nb_pkts pkts nb_tx, tr = tr' ++ [ETx off nb_pkts pkts nb_tx].

(** "The interval is the counter frequency divided by the target rate",
    one cycle of slack granted for the truncation. *)
Definition interval_is_hz_over_target : Prop :=
  forall tsc_hz target,
    0 < tsc_hz < 2 ^ 48 -> 0 < target < 2 ^ 32 ->
    exists id_cycles,
      id_cycles_of tsc_hz target = Some id_cycles /\
      tsc_hz / target - 1 <= id_cycles <= tsc_hz / target + 1.

(** A batch of 64 distinct handles, for the worked executions. *)
Definition example_batch : list mbuf := map Z.of_nat (seq 100 64).

(** The paced loop at 2 GHz with [target = 1000], after a first batch
    arrived at cycle 10^8 and its first packet was sent and accepted. *)
Definition example_cbr_prefix : list response :=
  [RDequeue 0 example_batch; RTsc 100000000; RTsc 100000000; RTx 1].

(** A whole batch sent on schedule, one packet every 2000 cycles from
    cycle 10^8 on, followed by the next successful dequeue. *)
Definition example_full_batch : list response :=
  RDequeue 0 example_batch :: RTsc 100000000 ::
  flat_map (fun k => [RTsc (100000000 + 2000 * Z.of_nat k); RTx 1]) (seq 0 64)
  ++ [RDequeue 0 example_batch].

(** ** Statements about whole runs *)

(** Handles one [ring_dequeue] call stored in [bufs]. *)
Definition fetched (e : event) : list mbuf :=
  match e with
  | EDequeue rc objs => if rc =? 0 then objs else []
  | _ => []
  end.

(** All handles taken off the ring, in dequeue order. *)
Definition dequeued (tr : list event) : list mbuf := flat_map fetched tr.

(** Handles of the current batch the drain loop still holds. *)
Definition drain_pending (s : drain_state) : list mbuf :=
  match d_pc s with
  | DrainTx => skipn (Z.to_nat (d_sent s)) (d_bufs s)
  | DrainDequeue => []
  end.

(** Handles of the current batch the paced loop still holds. *)
Definition cbr_pending (s : cbr_state) : list mbuf :=
  match c_pc s with
  | CbrDequeue => []
  | CbrStamp => if c_rc s =? 0 then c_bufs s else []
  | CbrSpin | CbrTx => skipn (Z.to_nat (c_sent s)) (c_bufs s)
  end.

(** Shape of the transmit calls of each loop. *)
Definition drain_tx_shape (e : event) : Prop :=
  match e with
  | ETx off nb_pkts _ _ => 0 <= off < batch_size /\ nb_pkts = batch_size - off
  | _ => True
  end.

Definition cbr_tx_shape (e : event) : Prop :=
  match e with
  | ETx off nb_pkts _ _ => 0 <= off < batch_size /\ nb_pkts = 1
  | _ => True
  end.

(** The answers consumed by one transmit attempt of the paced loop: the
    counter reads of its busy-wait, then the sink's count. *)
Definition attempt_answers (a : list Z * Z) : list response :=
  map RTsc (fst a) ++ [RTx (snd a)].

(** * Properties *)

Section MachineFacts.
Context {State : Type}.
Variable step : State -> response -> option (State * event).

Lemma run_app (rs1 rs2 : list response) :
  forall s s2 tr,
    run step s (rs1 ++ rs2) = Some (s2, tr) ->
    exists s1 tr1 tr2,
      run step s rs1 = Some (s1, tr1) /\ run step s1 rs2 = Some (s2, tr2) /\
      tr = tr1 ++ tr2.
Proof.
  induction rs1 as [|r rs1 IH]; intros s s2 tr H; simpl in *.
  - exists s, [], tr. auto.
  - destruct (step s r) as [[s1 e]|]; [|discriminate].
    destruct (run step s1 (rs1 ++ rs2)) as [[s3 tr3]|] eqn:E; [|discriminate].
    inversion H; subst; clear H.
    destruct (IH _ _ _ E) as (sa & tra & trb & Ha & Hb & ->).
    exists sa, (e :: tra), trb. rewrite Ha. auto.
Qed.

Lemma run_app_intro (rs1 rs2 : list response) :
  forall s s1 s2 tr1 tr2,
    run step s rs1 = Some (s1, tr1) -> run step s1 rs2 = Some (s2, tr2) ->
    run step s (rs1 ++ rs2) = Some (s2, tr1 ++ tr2).
Proof.
  induction rs1 as [|r rs1 IH]; intros s s1 s2 tr1 tr2 H1 H2; simpl in *.
  - inversion H1; subst. exact H2.
  - destruct (step s r) as [[sa e]|]; [|discriminate].
    destruct (run step sa rs1) as [[sb trb]|] eqn:E; [|discriminate].
    inversion H1; subst; clear H1.
    rewrite (IH _ _ _ _ _ E H2). reflexivity.
Qed.

Lemma run_one (s : State) (r : response) (s' : State) (tr : list event) :
  run step s [r] = Some (s', tr) -> exists e, step s r = Some (s', e) /\ tr = [e].
Proof.
  simpl. destruct (step s r) as [[s1 e]|]; [|discriminate].
  intros H; inversion H; subst. eauto.
Qed.

Lemma run_snoc (rs : list response) (r : response) :
  forall s s' tr,
    run step s (rs ++ [r]) = Some (s', tr) ->
    exists s1 tr1 e,
      run step s rs = Some (s1, tr1) /\ step s1 r = Some (s', e) /\
      tr = tr1 ++ [e].
Proof.
  intros s s' tr H.
  destruct (run_app _ _ _ _ _ H) as (s1 & tr1 & tr2 & H1 & H2 & ->).
  destruct (run_one _ _ _ _ H2) as (e & He & ->).
  exists s1, tr1, e. auto.
Qed.

(** Invariants relating the current state to the trace so far are
    proved one step at a time; [ok] is the contract the environment's
    answers are assumed to meet. *)
Lemma run_invariant (ok : event -> Prop) (P : State -> list event -> Prop)
    (s0 : State) :
  P s0 [] ->
  (forall s tr r s' e,
      P s tr -> Forall ok tr -> step s r = Some (s', e) -> ok e ->
      P s' (tr ++ [e])) ->
  forall rs s tr, run step s0 rs = Some (s, tr) -> Forall ok tr -> P s tr.
Proof.
  intros H0 Hstep rs. induction rs as [|r rs IH] using rev_ind;
    intros s tr Hrun Hok.
  - simpl in Hrun. inversion Hrun; subst. exact H0.
  - destruct (run_snoc _ _ _ _ _ Hrun) as (s1 & tr1 & e & H1 & H2 & ->).
    apply Forall_app in Hok. destruct Hok as [Hok1 Hok2].
    inversion Hok2; subst.
    eapply Hstep; eauto.
Qed.
End MachineFacts.

(** ** Arithmetic and list helpers *)

Ltac splits := repeat match goal with |- _ /\ _ => split end.

Lemma wrap32_small (z : Z) : 0 <= z < 2 ^ 32 -> wrap32 z = z.
Proof. intros H. unfold wrap32. apply Z.mod_small. exact H. Qed.

Lemma wrap16_small (z : Z) : 0 <= z < 2 ^ 16 -> wrap16 z = z.
Proof. intros H. unfold wrap16. apply Z.mod_small. exact H. Qed.

Lemma wrap64_small (z : Z) : 0 <= z < 2 ^ 64 -> wrap64 z = z.
Proof. intros H. unfold wrap64. apply Z.mod_small. exact H. Qed.

Lemma wrap32_range (z : Z) : 0 <= wrap32 z < 2 ^ 32.
Proof. unfold wrap32. apply Z.mod_pos_bound. lia. Qed.

Lemma wrap64_range (z : Z) : 0 <= wrap64 z < 2 ^ 64.
Proof. unfold wrap64. apply Z.mod_pos_bound. lia. Qed.

Lemma firstn_plus_skipn {A : Type} (a b : nat) (l : list A) :
  firstn (a + b) l = firstn a l ++ firstn b (skipn a l).
Proof.
  revert l. induction a as [|a IH]; intros l; simpl.
  - reflexivity.
  - destruct l as [|x l]; simpl.
    + now rewrite firstn_nil.
    + now rewrite IH.
Qed.

Lemma snoc_split {A : Type} (tr tr1 tr2 : list A) (e x : A) :
  tr ++ [e] = tr1 ++ x :: tr2 ->
  (tr2 = [] /\ tr1 = tr /\ x = e) \/
  (exists tr2', tr2 = tr2' ++ [e] /\ tr = tr1 ++ x :: tr2').
Proof.
  intros H. destruct tr2 as [|z tr2 _] using rev_ind.
  - left. apply app_inj_tail in H. destruct H as [-> ->]. auto.
  - right. exists tr2.
    change (tr1 ++ x :: tr2 ++ [z]) with (tr1 ++ (x :: tr2) ++ [z]) in H.
    rewrite app_assoc in H. apply app_inj_tail in H.
    destruct H as [-> ->]. auto.
Qed.

Lemma accepted_app (tr1 tr2 : list event) :
  accepted (tr1 ++ tr2) = accepted tr1 ++ accepted tr2.
Proof. unfold accepted. apply flat_map_app. Qed.

Lemma slice_suffix (B : list mbuf) (sent : Z) :
  Z.of_nat (length B) = batch_size -> 0 <= sent ->
  slice B sent (batch_size - sent) = skipn (Z.to_nat sent) B.
Proof.
  intros HB Hs. unfold slice. apply firstn_all2.
  rewrite length_skipn. unfold batch_size in *. lia.
Qed.

(** ** The drain loop *)

(** One pass through line 22 while [sent] is below [batch_size]. *)
Lemma drain_tx_step (B : list mbuf) (sent nb_tx : Z) :
  0 <= sent < batch_size ->
  drain_step (mkDrain DrainTx B sent) (RTx nb_tx) =
  Some (drain_while B (wrap32 (sent + nb_tx)),
        ETx sent (batch_size - sent) (slice B sent (batch_size - sent)) nb_tx).
Proof.
  intros H. unfold drain_step; simpl d_pc; cbv iota; simpl d_sent; simpl d_bufs.
  unfold batch_size in *.
  rewrite (wrap32_small (64 - sent)) by lia.
  rewrite (wrap16_small (64 - sent)) by lia.
  reflexivity.
Qed.

Lemma sum_app (xs ys : list Z) : sum (xs ++ ys) = sum xs + sum ys.
Proof. induction xs as [|x xs IH]; simpl; [reflexivity | rewrite IH; lia]. Qed.

Lemma drain_inner_loop (B : list mbuf) :
  Z.of_nat (length B) = batch_size ->
  forall ns s tr,
    run drain_step (mkDrain DrainTx B 0) (map RTx ns) = Some (s, tr) ->
    Forall tx_contract tr ->
    d_bufs s = B /\
    0 <= d_sent s <= batch_size /\
    d_sent s = sum ns /\
    (d_pc s = DrainTx <-> d_sent s < batch_size) /\
    accepted tr = firstn (Z.to_nat (d_sent s)) B /\
    offers_unsent_suffix B tr.
Proof.
  intros HB ns. induction ns as [|n ns IH] using rev_ind; intros s tr Hrun Hok.
  - simpl in Hrun. inversion Hrun; subst; simpl.
    unfold batch_size. splits; try lia; auto.
    + split; [lia | reflexivity].
    + intros ta o k p m tb H. destruct ta; discriminate.
  - rewrite map_app in Hrun. simpl map in Hrun.
    destruct (run_snoc _ _ _ _ _ _ Hrun) as (s1 & tr1 & e & H1 & H2 & ->).
    apply Forall_app in Hok. destruct Hok as [Hok1 Hok2].
    destruct (IH _ _ H1 Hok1) as (Hb & Hr & Hsum & Hpc & Hacc & Hoff).
    destruct s1 as [pc bufs sent]. cbn [d_pc d_bufs d_sent] in *. subst bufs.
    destruct pc; [discriminate H2|].
    assert (Hlt : sent < batch_size) by (apply Hpc; reflexivity).
    rewrite drain_tx_step in H2 by lia.
    assert (Es : s = drain_while B (wrap32 (sent + n))) by congruence.
    assert (Ee : e = ETx sent (batch_size - sent)
                         (slice B sent (batch_size - sent)) n) by congruence.
    subst s e. clear H2.
    apply Forall_inv in Hok2. rename Hok2 into Hc. unfold tx_contract in Hc.
    rewrite (wrap32_small (sent + n)) by (unfold batch_size in *; lia).
    assert (Hlen : length (accepted tr1) = Z.to_nat sent).
    { rewrite Hacc, length_firstn. unfold batch_size in *. lia. }
    unfold drain_while.
    assert (Hacc' : accepted (tr1 ++ [ETx sent (batch_size - sent)
                        (slice B sent (batch_size - sent)) n]) =
                    firstn (Z.to_nat (sent + n)) B).
    { rewrite accepted_app, Hacc. cbn [accepted flat_map taken].
      rewrite app_nil_r, slice_suffix by lia.
      replace (Z.to_nat (sent + n)) with (Z.to_nat sent + Z.to_nat n)%nat by lia.
      symmetry. apply firstn_plus_skipn. }
    assert (Hoff' : offers_unsent_suffix B (tr1 ++ [ETx sent (batch_size - sent)
                        (slice B sent (batch_size - sent)) n])).
    { intros ta o k p m tb Hsplit. apply snoc_split in Hsplit.
      destruct Hsplit as [(-> & -> & Heq) | (tb' & -> & ->)].
      - assert (o = sent) by congruence.
        assert (k = batch_size - sent) by congruence.
        assert (p = slice B sent (batch_size - sent)) by congruence.
        subst o k p. rewrite Hlen, slice_suffix by lia.
        splits; (lia || reflexivity).
      - eapply Hoff; reflexivity. }
    unfold drain_while.
    destruct (Z.ltb_spec (sent + n) batch_size) as [Hlt'|Hge];
      cbn [d_pc d_bufs d_sent]; splits; auto; try lia.
    all: try (rewrite sum_app; cbn [sum fold_right]; lia).
    all: split; intros; (lia || discriminate || reflexivity).
Qed.

(** C2. Drain loop, one batch: after a successful dequeue of [B], for any
    accepted counts [ns] the sink returns within its contract, every
    transmit call starts at the first handle not yet taken and offers the
    whole unsent suffix of [B]; the handles taken so far are the first
    [sent] handles of [B] in order, [sent] being the total of the counts;
    and the inner loop is left exactly when [sent = batch_size], at which
    point the handles taken are [B] itself. *)
Theorem drain_batch_sent_once_in_order
    (s0 : drain_state) (B : list mbuf) (ns : list Z)
    (s : drain_state) (tr : list event) :
  d_pc s0 = DrainDequeue ->
  Z.of_nat (length B) = batch_size ->
  run drain_step s0 (RDequeue 0 B :: map RTx ns) = Some (s, tr) ->
  Forall tx_contract tr ->
  exists tr',
    tr = EDequeue 0 B :: tr' /\
    offers_unsent_suffix B tr' /\
    accepted tr' = firstn (Z.to_nat (d_sent s)) B /\
    d_sent s = sum ns /\
    0 <= d_sent s <= batch_size /\
    (d_pc s = DrainDequeue <-> d_sent s = batch_size) /\
    (d_pc s = DrainDequeue -> accepted tr' = B).
Proof.
  intros Hpc HB Hrun Hok.
  change (RDequeue 0 B :: map RTx ns) with ([RDequeue 0 B] ++ map RTx ns) in Hrun.
  destruct (run_app _ _ _ _ _ _ Hrun) as (s1 & tr1 & tr2 & H1 & H2 & ->).
  destruct (run_one _ _ _ _ _ H1) as (e & He & ->).
  unfold drain_step in He. rewrite Hpc in He. cbn [Z.eqb] in He.
  assert (Es : s1 = mkDrain DrainTx B 0) by (cbv in He; congruence).
  assert (Ee : e = EDequeue 0 B) by congruence.
  subst s1 e. clear He H1.
  apply Forall_app in Hok. destruct Hok as [_ Hok].
  destruct (drain_inner_loop B HB ns s tr2 H2 Hok)
    as (Hb & Hr & Hsum & Hpc' & Hacc & Hoff).
  exists tr2. splits; auto; try lia.
  - assert (Hcase : d_pc s = DrainDequeue <-> d_pc s <> DrainTx)
      by (destruct (d_pc s); split; congruence).
    rewrite Hcase, Hpc'. lia.
  - intros Hd. rewrite Hacc.
    assert (d_sent s = batch_size).
    { destruct (d_pc s) eqn:E; [|discriminate].
      assert (~ d_sent s < batch_size) by (rewrite <- Hpc'; discriminate). lia. }
    apply firstn_all2. lia.
Qed.

Lemma drain_batch_sent_once_in_order_witness :
  exists s tr',
    main_loop [] (RDequeue 0 example_batch :: map RTx [10; 0; 54]) =
      Some (s, EDequeue 0 example_batch :: tr') /\
    d_pc s = DrainDequeue /\ accepted tr' = example_batch.
Proof.
  destruct (main_loop [] (RDequeue 0 example_batch :: map RTx [10; 0; 54]))
    as [[s tr]|] eqn:E; [|vm_compute in E; discriminate].
  assert (Hs : d_pc s = DrainDequeue).
  { vm_compute in E. injection E as <- _. reflexivity. }
  assert (Hok : Forall tx_contract tr).
  { vm_compute in E. injection E as _ <-.
    repeat constructor; cbv; discriminate. }
  destruct (drain_batch_sent_once_in_order (drain_init []) example_batch
              [10; 0; 54] s tr eq_refl eq_refl E Hok)
    as (tr' & -> & _ & _ & _ & _ & _ & Hall).
  exists s, tr'. auto.
Defined.

(** ** The paced loop *)

Lemma uint64_of_double_range (x : double) (v : Z) :
  uint64_of_double x = Some v -> 0 <= v < 2 ^ 64.
Proof.
  destruct x as [sx|sx| |sx m e]; cbn [uint64_of_double]; try discriminate.
  - intros H. injection H as <-. lia.
  - destruct sx.
    + destruct (Z.shiftl (Z.pos m) e =? 0); [|discriminate].
      intros H. injection H as <-. lia.
    + destruct (Z.ltb_spec (Z.shiftl (Z.pos m) e) (2 ^ 64)) as [Hlt|Hge];
        [|discriminate].
      intros H. injection H as <-. split; [|assumption].
      apply Z.shiftl_nonneg. lia.
Qed.

Lemma cbr_init_inv (tsc_hz target : Z) (bufs0 : list mbuf) (s0 : cbr_state) :
  cbr_init tsc_hz target bufs0 = Some s0 ->
  cbr_inv s0 /\ c_pc s0 = CbrDequeue /\ c_next_send s0 = 0 /\ c_tsc_hz s0 = tsc_hz.
Proof.
  unfold cbr_init. destruct (id_cycles_of tsc_hz target) as [id|] eqn:E;
    [|discriminate].
  intros H. injection H as <-. apply uint64_of_double_range in E.
  unfold cbr_inv. cbn [c_pc c_next_send c_id_cycles c_sent c_bufs c_rc c_tsc_hz].
  splits; try lia; try reflexivity.
  - intros [H|H]; discriminate.
  - discriminate.
Qed.

Lemma cbr_step_inv (s : cbr_state) (r : response) (s' : cbr_state) (e : event) :
  cbr_inv s -> cbr_step s r = Some (s', e) -> env_contract e -> cbr_inv s'.
Proof.
  intros (Hns & Hid & Hin & Hst) Hstep [Htsc Hring].
  destruct s as [pc hz id ns rc cur bufs sent].
  unfold cbr_inv in *.
  cbn [c_pc c_next_send c_id_cycles c_sent c_bufs c_rc c_tsc_hz c_cur] in *.
  unfold cbr_step in Hstep.
  cbn [c_pc c_next_send c_id_cycles c_sent c_bufs c_rc c_tsc_hz c_cur] in Hstep.
  destruct pc, r; try discriminate.
  - (* line 34 *)
    injection Hstep as <- <-. cbn [ring_contract] in Hring.
    cbn [c_pc c_next_send c_id_cycles c_sent c_bufs c_rc c_tsc_hz c_cur].
    splits; try lia.
    + intros [H|H]; discriminate.
    + intros _ ->. cbn [Z.eqb]. auto.
  - (* lines 35-41 *)
    assert (Ee : e = ETsc cur0) by (destruct (rc =? 0); congruence).
    rewrite Ee in Htsc. cbn [tsc_contract] in Htsc.
    assert (Hns' : 0 <= (if idle_gap hz ns cur0 then cur0 else ns) < 2 ^ 64)
      by (destruct (idle_gap hz ns cur0); lia).
    destruct (Z.eqb_spec rc 0) as [Hrc|Hrc].
    + injection Hstep as <- <-. unfold cbr_while, batch_size in *.
      cbn [c_pc c_next_send c_id_cycles c_sent c_bufs c_rc c_tsc_hz c_cur Z.ltb Z.compare].
      splits; try lia.
      * intros _. split; [lia | auto].
      * discriminate.
    + injection Hstep as <- <-.
      cbn [c_pc c_next_send c_id_cycles c_sent c_bufs c_rc c_tsc_hz c_cur].
      splits; try lia.
      intros [H|H]; discriminate.
  - (* line 43-44 *)
    destruct (cur0 <? ns); injection Hstep as <- <-;
      cbn [c_pc c_next_send c_id_cycles c_sent c_bufs c_rc c_tsc_hz c_cur].
    + splits; try lia.
      * intros _. apply Hin. left. reflexivity.
      * discriminate.
    + pose proof (wrap64_range (ns + id)). splits; try lia.
      * intros _. apply Hin. left. reflexivity.
      * discriminate.
  - (* line 45 *)
    injection Hstep as <- <-. unfold cbr_while.
    cbn [c_pc c_next_send c_id_cycles c_sent c_bufs c_rc c_tsc_hz c_cur].
    pose proof (wrap32_range (sent + nb_tx)).
    destruct (Z.ltb_spec (wrap32 (sent + nb_tx)) batch_size) as [Hlt|Hge];
      splits; try lia; try discriminate.
    + intros _. split; [lia | apply Hin; right; reflexivity].
    + intros [E|E]; discriminate.
Qed.

Lemma main_loop_cbr_inv (tsc_hz target : Z) (bufs0 : list mbuf)
    (rs : list response) (s : cbr_state) (tr : list event) :
  main_loop_cbr tsc_hz target bufs0 rs = Some (s, tr) ->
  Forall env_contract tr -> cbr_inv s.
Proof.
  unfold main_loop_cbr.
  destruct (cbr_init tsc_hz target bufs0) as [s0|] eqn:E; [|discriminate].
  intros Hrun Hok. destruct (cbr_init_inv _ _ _ _ E) as (H0 & _).
  apply (run_invariant cbr_step env_contract (fun s _ => cbr_inv s) s0 H0)
    with (rs := rs) (tr := tr); auto.
  intros s1 tr1 r s2 e Hi _ Hs Hc. eapply cbr_step_inv; eauto.
Qed.

(** One busy-wait followed by its transmit call (lines 43-45): started
    at any state [s] of the spin loop, the counter reads [curs] and the
    sink's answer [nb_tx] are consumed only if all reads but the last are
    below [next_send] and the last one is not. *)
Lemma cbr_wait (curs : list Z) :
  forall (s : cbr_state) (nb_tx : Z) (s' : cbr_state) (tr : list event),
    c_pc s = CbrSpin ->
    run cbr_step s (map RTsc curs ++ [RTx nb_tx]) = Some (s', tr) ->
    exists early cur,
      curs = early ++ [cur] /\
      Forall (fun c => c < c_next_send s) early /\
      c_next_send s <= cur /\
      tr = map ETsc curs ++
           [ETx (c_sent s) 1 (slice (c_bufs s) (c_sent s) 1) nb_tx] /\
      s' = cbr_while s (wrap64 (c_next_send s + c_id_cycles s)) cur
                     (wrap32 (c_sent s + nb_tx)).
Proof.
  induction curs as [|c curs IH]; intros s nb s' tr Hpc Hrun.
  - cbn [map app run] in Hrun. unfold cbr_step in Hrun.
    rewrite Hpc in Hrun. discriminate.
  - cbn [map app run] in Hrun. unfold cbr_step at 1 in Hrun.
    rewrite Hpc in Hrun.
    destruct (Z.ltb_spec c (c_next_send s)) as [Hlt|Hge].
    + match type of Hrun with
      | match run _ ?s1 _ with _ => _ end = _ =>
          destruct (run cbr_step s1 (map RTsc curs ++ [RTx nb]))
            as [[s2 tr2]|] eqn:E; [|discriminate];
          apply IH in E; [|reflexivity]
      end.
      destruct E as (early & cur & -> & Hearly & Hcur & -> & ->).
      cbn [c_next_send c_id_cycles c_sent c_bufs] in *.
      injection Hrun as <- <-.
      exists (c :: early), cur. splits; auto.
    + destruct curs as [|c' curs].
      * cbn [map app run] in Hrun. unfold cbr_step in Hrun.
        cbn [c_pc] in Hrun.
        cbn [c_next_send c_id_cycles c_sent c_bufs c_cur] in Hrun.
        injection Hrun as <- <-.
        exists [], c. splits; auto.
      * cbn [map app run] in Hrun. unfold cbr_step at 1 in Hrun.
        cbn [c_pc] in Hrun. discriminate.
Qed.

Lemma Forall_trivial {A : Type} (l : list A) : Forall (fun _ => True) l.
Proof. induction l; constructor; auto. Qed.

(** Inside the inner loop [sent] is below [batch_size], whatever the
    collaborators answer. *)
Lemma main_loop_cbr_sent_range (tsc_hz target : Z) (bufs0 : list mbuf)
    (rs : list response) (s : cbr_state) (tr : list event) :
  main_loop_cbr tsc_hz target bufs0 rs = Some (s, tr) ->
  c_pc s = CbrSpin \/ c_pc s = CbrTx -> 0 <= c_sent s < batch_size.
Proof.
  unfold main_loop_cbr.
  destruct (cbr_init tsc_hz target bufs0) as [s0|] eqn:E; [|discriminate].
  intros Hrun. destruct (cbr_init_inv _ _ _ _ E) as (_ & Hpc0 & _).
  apply (run_invariant cbr_step (fun _ => True)
           (fun s _ => c_pc s = CbrSpin \/ c_pc s = CbrTx ->
                       0 <= c_sent s < batch_size) s0)
    with (rs := rs) (tr := tr); auto using Forall_trivial.
  - rewrite Hpc0. intros [H|H]; discriminate.
  - clear. intros s tr r s' e IH _ Hstep _.
    destruct s as [pc hz id ns rc cur bufs sent]. unfold cbr_step in Hstep.
    cbn [c_pc c_next_send c_id_cycles c_sent c_bufs c_rc c_tsc_hz c_cur] in *.
    destruct pc, r; try discriminate.
    + injection Hstep as <- <-. intros [H|H]; discriminate.
    + destruct (rc =? 0); injection Hstep as <- <-.
      * unfold cbr_while, batch_size. cbn. lia.
      * intros [H|H]; discriminate.
    + destruct (cur0 <? ns); injection Hstep as <- <-; cbn [c_pc c_sent];
        intros _; apply IH; auto.
    + injection Hstep as <- <-. unfold cbr_while. cbn [c_pc c_sent].
      pose proof (wrap32_range (sent + nb_tx)).
      destruct (Z.ltb_spec (wrap32 (sent + nb_tx)) batch_size); [lia|].
      intros [H'|H']; discriminate.
Qed.

Lemma slice_one (bufs : list mbuf) (off : Z) :
  0 <= off < Z.of_nat (length bufs) ->
  exists pkt,
    nth_error bufs (Z.to_nat off) = Some pkt /\ slice bufs off 1 = [pkt].
Proof.
  intros H. unfold slice.
  assert (Hn : (Z.to_nat off < length bufs)%nat) by lia.
  generalize dependent (Z.to_nat off). clear H. intros n.
  revert bufs. induction n as [|n IH]; intros [|x bufs] Hn;
    cbn [length] in Hn; try lia.
  - exists x. auto.
  - apply IH. lia.
Qed.

Lemma main_loop_cbr_snoc (tsc_hz target : Z) (bufs0 : list mbuf)
    (rs : list response) (s : cbr_state) (tr : list event)
    (r : response) (s' : cbr_state) (e : event) :
  main_loop_cbr tsc_hz target bufs0 rs = Some (s, tr) ->
  cbr_step s r = Some (s', e) ->
  main_loop_cbr tsc_hz target bufs0 (rs ++ [r]) = Some (s', tr ++ [e]).
Proof.
  unfold main_loop_cbr.
  destruct (cbr_init tsc_hz target bufs0) as [s0|]; [|discriminate].
  intros Hrun Hstep. eapply run_app_intro; [exact Hrun|].
  cbn [run]. rewrite Hstep. reflexivity.
Qed.

Lemma main_loop_cbr_nil (tsc_hz target : Z) (bufs0 : list mbuf)
    (s : cbr_state) (tr : list event) :
  main_loop_cbr tsc_hz target bufs0 [] = Some (s, tr) ->
  c_pc s = CbrDequeue /\ tr = [].
Proof.
  unfold main_loop_cbr.
  destruct (cbr_init tsc_hz target bufs0) as [s0|] eqn:E; [|discriminate].
  destruct (cbr_init_inv _ _ _ _ E) as (_ & Hpc & _).
  cbn [run]. intros H. injection H as <- <-. auto.
Qed.

(** Where the paced loop stands with respect to the current busy-wait,
    together with the schedule property of every transmit call made so
    far. *)
Lemma main_loop_cbr_waits (tsc_hz target : Z) (bufs0 : list mbuf)
    (rs : list response) :
  forall (s : cbr_state) (tr : list event),
    main_loop_cbr tsc_hz target bufs0 rs = Some (s, tr) ->
    (forall tr1 off nb_pkts pkts nb_tx tr2,
        tr = tr1 ++ ETx off nb_pkts pkts nb_tx :: tr2 ->
        sent_on_schedule tsc_hz target bufs0 tr1) /\
    (c_pc s = CbrSpin ->
     exists rs0 s0 tr0 waits,
       wait_begins_at tsc_hz target bufs0 rs0 s0 tr0 /\
       tr = tr0 ++ map ETsc waits /\
       Forall (fun c => c < c_next_send s0) waits /\
       c_next_send s = c_next_send s0) /\
    (c_pc s = CbrTx -> sent_on_schedule tsc_hz target bufs0 tr).
Proof.
  induction rs as [|r rs IH] using rev_ind; intros s tr Hrun.
  - destruct (main_loop_cbr_nil _ _ _ _ _ Hrun) as [Hpc ->].
    rewrite Hpc. splits; try discriminate.
    intros tr1 off k pkts n tr2 H. destruct tr1; discriminate.
  - assert (Hpre : exists s1 tr1 e,
               main_loop_cbr tsc_hz target bufs0 rs = Some (s1, tr1) /\
               cbr_step s1 r = Some (s, e) /\ tr = tr1 ++ [e]).
    { unfold main_loop_cbr in *.
      destruct (cbr_init tsc_hz target bufs0) as [s0|]; [|discriminate].
      apply run_snoc. exact Hrun. }
    destruct Hpre as (s1 & tr1 & e & Hrun1 & Hstep & ->).
    destruct (IH _ _ Hrun1) as (Hpast & Hspin & Htx).
    assert (Hbegin : c_pc s1 <> CbrSpin -> c_pc s = CbrSpin ->
                     wait_begins_at tsc_hz target bufs0 (rs ++ [r]) s
                                    (tr1 ++ [e])).
    { intros Hfrom Hto. split; [exact Hrun|]. split; [exact Hto|].
      exists rs, r, s1, tr1. auto. }
    assert (Hold : is_tx e = false ->
                   forall ta off nb_pkts pkts nb_tx tb,
                     tr1 ++ [e] = ta ++ ETx off nb_pkts pkts nb_tx :: tb ->
                     sent_on_schedule tsc_hz target bufs0 ta).
    { intros He ta off k pkts n tb Hsplit. apply snoc_split in Hsplit.
      destruct Hsplit as [(_ & _ & Heq) | (tb' & _ & Htr1)].
      - rewrite <- Heq in He. discriminate.
      - eapply Hpast. exact Htr1. }
    destruct s1 as [pc hz id ns rc cur bufs sent].
    unfold cbr_step in Hstep.
    cbn [c_pc c_next_send c_id_cycles c_sent c_bufs c_rc c_tsc_hz c_cur] in *.
    destruct pc, r as [rc' objs|cur'|n]; try discriminate.
    + (* line 34 *)
      injection Hstep as <- <-. cbn [c_pc].
      splits; try discriminate. apply Hold. reflexivity.
    + (* lines 35-41 *)
      assert (Ee : e = ETsc cur') by (destruct (rc =? 0); congruence).
      subst e. splits; [apply Hold; reflexivity | |].
      * intros Hto. exists (rs ++ [RTsc cur']), s, (tr1 ++ [ETsc cur']), [].
        splits; [|symmetry; apply app_nil_r | constructor | reflexivity].
        apply Hbegin; [discriminate | exact Hto].
      * destruct (rc =? 0); injection Hstep as <-; unfold cbr_while;
          cbn [c_pc]; discriminate.
    + (* lines 43-44 *)
      destruct (Hspin eq_refl) as (rs0 & s0 & tr0 & waits & Hw & -> & Hlow & Hns).
      destruct (Z.ltb_spec cur' ns) as [Hlt|Hge]; injection Hstep as <- <-;
        cbn [c_pc c_next_send]; (splits; [apply Hold; reflexivity | |]);
        try discriminate.
      * intros _. exists rs0, s0, tr0, (waits ++ [cur']).
        rewrite map_app, app_assoc. splits; auto.
        apply Forall_app. split; [assumption|]. constructor; [lia|constructor].
      * intros _. exists rs0, s0, tr0, waits, cur'.
        rewrite <- app_assoc. splits; auto. lia.
    + (* line 45 *)
      injection Hstep as <- <-. splits.
      * intros ta off k pkts m tb Hsplit. apply snoc_split in Hsplit.
        destruct Hsplit as [(_ & -> & _) | (tb' & _ & Htr1)].
        -- apply Htx. reflexivity.
        -- eapply Hpast. exact Htr1.
      * intros Hto.
        eexists (rs ++ [RTx n]), _, _, []. splits; [|symmetry; apply app_nil_r | constructor | reflexivity].
        apply Hbegin; [discriminate | exact Hto].
      * unfold cbr_while. cbn [c_pc].
        destruct (wrap32 (sent + n) <? batch_size); discriminate.
Qed.

(** C5. The paced loop never transmits a packet before its scheduled
    cycle.  In every execution, the calls made before any transmit call
    end with the busy-wait for that packet: it began, entered from outside
    the spin loop, in a state [s0] whose [next_send] is the packet's
    schedule; the counter was read below that schedule any number of
    times, and the read made immediately before the transmit call
    returned a value at or above it. *)
Theorem cbr_never_sends_early
    (tsc_hz target : Z) (bufs0 : list mbuf) (rs : list response)
    (s : cbr_state) (tr tr1 : list event) (off nb_pkts : Z)
    (pkts : list mbuf) (nb_tx : Z) (tr2 : list event) :
  main_loop_cbr tsc_hz target bufs0 rs = Some (s, tr) ->
  tr = tr1 ++ ETx off nb_pkts pkts nb_tx :: tr2 ->
  exists rs0 s0 tr0 waits cur,
    wait_begins_at tsc_hz target bufs0 rs0 s0 tr0 /\
    tr1 = tr0 ++ map ETsc waits ++ [ETsc cur] /\
    Forall (fun c => c < c_next_send s0) waits /\
    c_next_send s0 <= cur.
Proof.
  intros Hrun Hsplit.
  destruct (main_loop_cbr_waits _ _ _ _ _ _ Hrun) as (Hpast & _).
  exact (Hpast _ _ _ _ _ _ Hsplit).
Qed.

Lemma cbr_never_sends_early_witness :
  exists s tr1 rs0 s0 tr0 waits cur,
    main_loop_cbr 2000000000 1000 []
      (example_cbr_prefix ++
       [RTsc 100000500; RTsc 100001500; RTsc 100002100; RTx 1]) =
      Some (s, tr1 ++ [ETx 1 1 [101] 1]) /\
    wait_begins_at 2000000000 1000 [] rs0 s0 tr0 /\
    tr1 = tr0 ++ map ETsc waits ++ [ETsc cur] /\
    Forall (fun c => c < c_next_send s0) waits /\
    c_next_send s0 <= cur.
Proof.
  eassert (E : main_loop_cbr 2000000000 1000 []
                 (example_cbr_prefix ++
                  [RTsc 100000500; RTsc 100001500; RTsc 100002100; RTx 1]) =
               Some (_, _)) by (vm_compute; reflexivity).
  destruct (cbr_never_sends_early _ _ _ _ _ _ [_; _; _; _; _; _; _]
              _ _ _ _ [] E eq_refl)
    as (rs0 & s0 & tr0 & waits & cur & Hw & Htr1 & Hlow & Hcur).
  match type of Htr1 with
  | ?t1 = _ => eexists _, t1, rs0, s0, tr0, waits, cur
  end.
  split; [exact E|]. auto.
Defined.

(** C7. In the inner loop of the paced loop every transmit attempt is a
    call with [nb_pkts = 1] offering the single handle [bufs[sent]], and
    [next_send] has been advanced by [id_cycles] (in [uint64_t]
    arithmetic, hence by exactly [id_cycles] when the sum fits) exactly
    once when the attempt returns, whatever count [nb_tx] the sink
    reports. *)
Theorem cbr_one_packet_one_interval
    (tsc_hz target : Z) (bufs0 : list mbuf) (rs0 : list response)
    (s : cbr_state) (tr0 : list event) (curs : list Z) (nb_tx : Z)
    (s' : cbr_state) (tr : list event) :
  main_loop_cbr tsc_hz target bufs0 rs0 = Some (s, tr0) ->
  Forall env_contract tr0 ->
  c_pc s = CbrSpin ->
  run cbr_step s (map RTsc curs ++ [RTx nb_tx]) = Some (s', tr) ->
  exists pkt,
    nth_error (c_bufs s) (Z.to_nat (c_sent s)) = Some pkt /\
    tr = map ETsc curs ++ [ETx (c_sent s) 1 [pkt] nb_tx] /\
    c_next_send s' = wrap64 (c_next_send s + c_id_cycles s) /\
    (c_next_send s + c_id_cycles s < 2 ^ 64 ->
     c_next_send s' = c_next_send s + c_id_cycles s) /\
    c_id_cycles s' = c_id_cycles s.
Proof.
  intros Hreach Hok Hpc Hrun.
  destruct (main_loop_cbr_inv _ _ _ _ _ _ Hreach Hok) as (Hns & Hid & Hin & _).
  destruct (Hin (or_introl Hpc)) as [Hsent Hlen].
  destruct (cbr_wait curs s nb_tx s' tr Hpc Hrun)
    as (early & cur & Hc & _ & _ & Htr & ->).
  destruct (slice_one (c_bufs s) (c_sent s)) as (pkt & Hnth & Hslice);
    [lia|].
  exists pkt. rewrite Hslice in Htr. unfold cbr_while.
  cbn [c_next_send c_id_cycles]. splits; auto.
  intros Hfit. apply wrap64_small. lia.
Qed.

Lemma cbr_one_packet_one_interval_witness :
  exists s tr0 s0 tr_rej s1 tr_acc,
    main_loop_cbr 2000000000 1000 [] example_cbr_prefix = Some (s, tr0) /\
    run cbr_step s (map RTsc [100002100] ++ [RTx 0]) = Some (s0, tr_rej) /\
    run cbr_step s (map RTsc [100002100] ++ [RTx 1]) = Some (s1, tr_acc) /\
    tr_rej = [ETsc 100002100; ETx 1 1 [101] 0] /\
    tr_acc = [ETsc 100002100; ETx 1 1 [101] 1] /\
    c_next_send s0 = c_next_send s + 2000 /\
    c_next_send s1 = c_next_send s + 2000.
Proof.
  destruct (main_loop_cbr 2000000000 1000 [] example_cbr_prefix)
    as [[s tr0]|] eqn:E0; [|vm_compute in E0; discriminate].
  assert (Hok : Forall env_contract tr0).
  { vm_compute in E0. injection E0 as _ <-.
    repeat constructor; cbv; intros; congruence. }
  assert (Hpc : c_pc s = CbrSpin).
  { vm_compute in E0. injection E0 as <- _. reflexivity. }
  assert (Hid : c_id_cycles s = 2000).
  { vm_compute in E0. injection E0 as <- _. reflexivity. }
  assert (Hns : c_next_send s = 100002000).
  { vm_compute in E0. injection E0 as <- _. reflexivity. }
  assert (Hb : nth_error (c_bufs s) (Z.to_nat (c_sent s)) = Some 101).
  { vm_compute in E0. injection E0 as <- _. reflexivity. }
  destruct (run cbr_step s (map RTsc [100002100] ++ [RTx 0]))
    as [[s0 tr_rej]|] eqn:E1;
    [|vm_compute in E0; injection E0 as <- _; vm_compute in E1; discriminate].
  destruct (run cbr_step s (map RTsc [100002100] ++ [RTx 1]))
    as [[s1 tr_acc]|] eqn:E2;
    [|vm_compute in E0; injection E0 as <- _; vm_compute in E2; discriminate].
  destruct (cbr_one_packet_one_interval _ _ _ _ s tr0 _ _ s0 tr_rej E0 Hok Hpc E1)
    as (p0 & Hp0 & Ht0 & _ & Hn0 & _).
  destruct (cbr_one_packet_one_interval _ _ _ _ s tr0 _ _ s1 tr_acc E0 Hok Hpc E2)
    as (p1 & Hp1 & Ht1 & _ & Hn1 & _).
  rewrite Hb in Hp0, Hp1. injection Hp0 as <-. injection Hp1 as <-.
  assert (Hs : c_sent s = 1).
  { vm_compute in E0. injection E0 as <- _. reflexivity. }
  rewrite Hs in Ht0, Ht1. rewrite Hid, Hns in Hn0, Hn1.
  exists s, tr0, s0, tr_rej, s1, tr_acc. rewrite Hns.
  splits; auto; (apply Hn0 || apply Hn1); lia.
Defined.

(** C4 as stated does not hold: after the sink rejected the first packet
    of a batch (offset 0), the next call offers offset 0 again. *)
Lemma cbr_rejected_packet_is_resubmitted :
  ~ rejected_packet_never_resubmitted.
Proof.
  intros H.
  eassert (E : main_loop_cbr 2000000000 1000 []
                 [RDequeue 0 example_batch; RTsc 100000000; RTsc 100000000;
                  RTx 0; RTsc 100002000; RTx 1] = Some (_, _))
    by (vm_compute; reflexivity).
  eapply (H _ _ _ _ _ _ E [_; _; _] 0 _ [_; _] 0 _ 1).
  - reflexivity.
  - reflexivity.
  - right. left. reflexivity.
  - reflexivity.
Qed.

(** C4, amended. When the one-packet call of line 45 returns 0,
    [next_send] keeps the advance made for that attempt and [sent] is
    unchanged, so after the next busy-wait the loop calls the sink again
    at the same offset with the same handle: the packet is retried one
    interval later, not dropped. *)
Theorem cbr_rejected_packet_retried
    (tsc_hz target : Z) (bufs0 : list mbuf) (rs0 : list response)
    (s : cbr_state) (tr0 : list event) (curs : list Z) (nb_tx : Z)
    (s' : cbr_state) (tr : list event) :
  main_loop_cbr tsc_hz target bufs0 rs0 = Some (s, tr0) ->
  c_pc s = CbrTx ->
  run cbr_step s (RTx 0 :: map RTsc curs ++ [RTx nb_tx]) = Some (s', tr) ->
  tr = ETx (c_sent s) 1 (slice (c_bufs s) (c_sent s) 1) 0
       :: map ETsc curs
       ++ [ETx (c_sent s) 1 (slice (c_bufs s) (c_sent s) 1) nb_tx] /\
  c_next_send s' = wrap64 (c_next_send s + c_id_cycles s) /\
  c_sent s' = wrap32 (c_sent s + nb_tx).
Proof.
  intros Hreach Hpc Hrun.
  pose proof (main_loop_cbr_sent_range _ _ _ _ _ _ Hreach (or_intror Hpc))
    as Hsent.
  cbn [run] in Hrun. unfold cbr_step at 1 in Hrun. rewrite Hpc in Hrun.
  rewrite Z.add_0_r, wrap32_small in Hrun by (unfold batch_size in *; lia).
  unfold cbr_while at 1 in Hrun.
  destruct (Z.ltb_spec (c_sent s) batch_size) as [_|Hge]; [|lia].
  match type of Hrun with
  | match run _ ?s1 ?l with _ => _ end = _ =>
      destruct (run cbr_step s1 l) as [[s2 tr2]|] eqn:E; [|discriminate];
      apply cbr_wait in E; [|reflexivity]
  end.
  destruct E as (early & cur & _ & _ & _ & -> & ->).
  cbn [c_next_send c_id_cycles c_sent c_bufs] in Hrun.
  injection Hrun as <- <-. unfold cbr_while.
  cbn [c_next_send c_id_cycles c_sent c_bufs]. auto.
Qed.

Lemma cbr_rejected_packet_retried_witness :
  exists s tr0 s',
    main_loop_cbr 2000000000 1000 []
      [RDequeue 0 example_batch; RTsc 100000000; RTsc 100000000] =
      Some (s, tr0) /\
    run cbr_step s (RTx 0 :: map RTsc [100001000; 100002000] ++ [RTx 1]) =
      Some (s', [ETx 0 1 [100] 0; ETsc 100001000; ETsc 100002000;
                 ETx 0 1 [100] 1]) /\
    c_next_send s = 100002000 /\ c_next_send s' = 100004000 /\
    c_sent s' = 1.
Proof.
  destruct (main_loop_cbr 2000000000 1000 []
              [RDequeue 0 example_batch; RTsc 100000000; RTsc 100000000])
    as [[s tr0]|] eqn:E0; [|vm_compute in E0; discriminate].
  assert (Es : s = mkCbr CbrTx 2000000000 2000 100002000 0 100000000
                         example_batch 0).
  { vm_compute in E0. injection E0 as <- _. reflexivity. }
  destruct (run cbr_step s (RTx 0 :: map RTsc [100001000; 100002000] ++ [RTx 1]))
    as [[s' tr]|] eqn:E1; [|rewrite Es in E1; vm_compute in E1; discriminate].
  destruct (cbr_rejected_packet_retried _ _ _ _ s tr0 _ _ s' tr E0
              ltac:(rewrite Es; reflexivity) E1) as (Htr & Hns & Hsent).
  exists s, tr0, s'. rewrite E1, Htr, Hns, Hsent, Es. splits; reflexivity.
Defined.

(** C3 as stated does not hold: [next_send += id_cycles] is a [uint64_t]
    addition.  With the schedule reset to the counter value 2^64 - 1, the
    advance made for the first packet wraps around to 1999. *)
Lemma next_send_decreases_on_wrap : ~ next_send_monotone_except_reset.
Proof.
  intros H.
  eassert (E : main_loop_cbr 2000000000 1000 []
                 [RDequeue 0 example_batch; RTsc (2 ^ 64 - 1)] = Some (_, _))
    by (vm_compute; reflexivity).
  eassert (Es : cbr_step _ (RTsc (2 ^ 64 - 1)) = Some (_, _));
    [|destruct (H _ _ _ _ _ _ _ _ _ E Es) as [Hle | [Hpc _]]].
  - vm_compute. reflexivity.
  - repeat constructor; cbv; intros; congruence.
  - vm_compute in Hle. apply Hle. reflexivity.
  - discriminate Hpc.
Qed.

(** C3, amended. Along every execution of the paced loop whose counter
    reads are 64-bit values, a step leaves [next_send] at least as large
    as it was, with two exceptions: the reset of line 38, and the advance
    of line 44 when [next_send + id_cycles] does not fit in 64 bits, in
    which case [next_send] becomes [next_send + id_cycles - 2^64]. *)
Theorem next_send_monotone_up_to_wrap
    (tsc_hz target : Z) (bufs0 : list mbuf) (rs : list response)
    (s : cbr_state) (tr : list event) (r : response)
    (s' : cbr_state) (e : event) :
  main_loop_cbr tsc_hz target bufs0 rs = Some (s, tr) ->
  cbr_step s r = Some (s', e) ->
  Forall env_contract (tr ++ [e]) ->
  c_next_send s <= c_next_send s' \/
  is_reset s r \/
  (c_pc s = CbrSpin /\ c_pc s' = CbrTx /\
   2 ^ 64 <= c_next_send s + c_id_cycles s /\
   c_next_send s' = c_next_send s + c_id_cycles s - 2 ^ 64).
Proof.
  intros Hreach Hstep Hok. apply Forall_app in Hok. destruct Hok as [Hok _].
  destruct (main_loop_cbr_inv _ _ _ _ _ _ Hreach Hok) as (Hns & Hid & _).
  clear Hreach Hok. destruct s as [pc hz id ns rc cur bufs sent].
  unfold is_reset. unfold cbr_step in Hstep.
  cbn [c_pc c_next_send c_id_cycles c_sent c_bufs c_rc c_tsc_hz c_cur] in *.
  destruct pc, r; try discriminate.
  - injection Hstep as <- <-. cbn [c_next_send]. lia.
  - destruct (idle_gap hz ns cur0) eqn:Hgap.
    + right. left. split; [reflexivity|]. exists cur0. auto.
    + left. destruct (rc =? 0); injection Hstep as <- <-;
        unfold cbr_while; cbn [c_next_send]; lia.
  - destruct (cur0 <? ns); injection Hstep as <- <-; cbn [c_next_send c_pc].
    + lia.
    + destruct (Z.lt_ge_cases (ns + id) (2 ^ 64)) as [Hfit|Hov].
      * left. rewrite wrap64_small; lia.
      * right. right. splits; auto.
        unfold wrap64. symmetry. apply Z.mod_unique with (q := 1); lia.
  - injection Hstep as <- <-. unfold cbr_while. cbn [c_next_send]. lia.
Qed.

Lemma next_send_monotone_up_to_wrap_witness :
  exists s tr s' e,
    main_loop_cbr 2000000000 1000 [] example_cbr_prefix = Some (s, tr) /\
    cbr_step s (RTsc 100002100) = Some (s', e) /\
    c_next_send s = 100002000 /\ c_next_send s' = 100004000 /\
    (c_next_send s <= c_next_send s' \/
     is_reset s (RTsc 100002100) \/
     (c_pc s = CbrSpin /\ c_pc s' = CbrTx /\
      2 ^ 64 <= c_next_send s + c_id_cycles s /\
      c_next_send s' = c_next_send s + c_id_cycles s - 2 ^ 64)).
Proof.
  eassert (E : main_loop_cbr 2000000000 1000 [] example_cbr_prefix =
               Some (_, _)) by (vm_compute; reflexivity).
  match type of E with
  | _ = Some (?s0, _) =>
      eassert (Es : cbr_step s0 (RTsc 100002100) = Some (_, _))
        by (vm_compute; reflexivity)
  end.
  eexists _, _, _, _. split; [exact E|]. split; [exact Es|].
  split; [reflexivity|]. split; [reflexivity|].
  apply (next_send_monotone_up_to_wrap _ _ _ _ _ _ _ _ _ E Es).
  repeat constructor; cbv; intros; congruence.
Defined.

(** C6. When the counter value [cur] read at the top of an iteration
    (line 35) exceeds [next_send] by more than [tsc_hz / 100] cycles,
    [next_send] is set to exactly [cur]; if a batch was dequeued in that
    iteration ([rc = 0]) the busy-wait for its first packet starts with
    that schedule. *)
Theorem idle_gap_restarts_schedule (s : cbr_state) (cur : Z) :
  c_pc s = CbrStamp ->
  0 <= c_next_send s < 2 ^ 64 ->
  0 <= cur < 2 ^ 64 ->
  c_tsc_hz s / 100 < cur - c_next_send s ->
  exists s',
    cbr_step s (RTsc cur) = Some (s', ETsc cur) /\
    c_next_send s' = cur /\
    (c_rc s = 0 -> c_pc s' = CbrSpin /\ c_sent s' = 0) /\
    (c_rc s <> 0 -> c_pc s' = CbrDequeue).
Proof.
  intros Hpc Hns Hcur Hgap.
  assert (Hidle : idle_gap (c_tsc_hz s) (c_next_send s) cur = true).
  { unfold idle_gap. apply Z.ltb_lt.
    destruct (Z.lt_ge_cases (cur - c_next_send s) 0) as [Hneg|Hpos].
    - pose proof (wrap64_range (cur - c_next_send s)). lia.
    - rewrite wrap64_small; lia. }
  unfold cbr_step. rewrite Hpc, Hidle.
  destruct (Z.eqb_spec (c_rc s) 0) as [Hrc|Hrc]; eexists; split;
    try reflexivity; unfold cbr_while; cbn [c_next_send c_pc c_sent];
    splits; auto; try contradiction.
Qed.

Lemma idle_gap_restarts_schedule_witness :
  exists s tr s',
    main_loop_cbr 2000000000 1000 []
      [RDequeue 2 []; RTsc 1000; RDequeue 0 example_batch] = Some (s, tr) /\
    c_next_send s = 0 /\
    cbr_step s (RTsc 500000000) = Some (s', ETsc 500000000) /\
    c_next_send s' = 500000000 /\ c_pc s' = CbrSpin.
Proof.
  eassert (E : main_loop_cbr 2000000000 1000 []
                 [RDequeue 2 []; RTsc 1000; RDequeue 0 example_batch] =
               Some (_, _)) by (vm_compute; reflexivity).
  match type of E with
  | _ = Some (?s0, _) =>
      destruct (idle_gap_restarts_schedule s0 500000000)
        as (s' & Hstep & Hns & Hrc & _);
        [reflexivity | cbn [c_next_send]; lia | lia | cbv; reflexivity |]
  end.
  eexists _, _, s'. split; [exact E|]. split; [reflexivity|].
  split; [exact Hstep|]. split; [exact Hns|]. apply Hrc. reflexivity.
Defined.

(** C8. The test of line 37 is evaluated modulo 2^64: when the schedule
    is ahead of the counter, [cur < next_send], by less than
    [2^64 - tsc_hz / 100] cycles, [cur - next_send] wraps around to
    [2^64 - (next_send - cur)], which is above the threshold, and
    [next_send] is reset to [cur]. *)
Theorem ahead_of_schedule_resets (s : cbr_state) (cur : Z) :
  c_pc s = CbrStamp ->
  0 <= cur < c_next_send s ->
  c_next_send s < 2 ^ 64 ->
  c_next_send s - cur < 2 ^ 64 - c_tsc_hz s / 100 ->
  wrap64 (cur - c_next_send s) = 2 ^ 64 - (c_next_send s - cur) /\
  c_tsc_hz s / 100 < wrap64 (cur - c_next_send s) /\
  exists s',
    cbr_step s (RTsc cur) = Some (s', ETsc cur) /\ c_next_send s' = cur.
Proof.
  intros Hpc Hcur Hns Hahead.
  assert (Hwrap : wrap64 (cur - c_next_send s) = 2 ^ 64 - (c_next_send s - cur)).
  { unfold wrap64. symmetry. apply Z.mod_unique with (q := -1); lia. }
  split; [exact Hwrap|]. split; [lia|].
  assert (Hidle : idle_gap (c_tsc_hz s) (c_next_send s) cur = true)
    by (unfold idle_gap; apply Z.ltb_lt; lia).
  unfold cbr_step. rewrite Hpc, Hidle.
  destruct (c_rc s =? 0); eexists; split; reflexivity.
Qed.

Lemma ahead_of_schedule_resets_witness :
  exists s tr s',
    main_loop_cbr 2000000000 1000 [] example_full_batch = Some (s, tr) /\
    c_next_send s = 100128000 /\
    cbr_step s (RTsc 100126100) = Some (s', ETsc 100126100) /\
    c_next_send s' = 100126100.
Proof.
  eassert (E : main_loop_cbr 2000000000 1000 [] example_full_batch =
               Some (_, _)) by (vm_compute; reflexivity).
  match type of E with
  | _ = Some (?s0, _) =>
      destruct (ahead_of_schedule_resets s0 100126100)
        as (_ & _ & s' & Hstep & Hs');
        [reflexivity | cbn [c_next_send]; lia | cbn [c_next_send]; lia
        | cbv; reflexivity |]
  end.
  eexists _, _, s'. split; [exact E|]. split; [reflexivity|].
  split; [exact Hstep | exact Hs'].
Defined.

(** ** No batch, no transmit *)

Lemma main_loop_idle (bufs0 : list mbuf) (rs : list response)
    (s : drain_state) (tr : list event) :
  main_loop bufs0 rs = Some (s, tr) -> Forall none_ready tr ->
  d_pc s = DrainDequeue /\ forallb is_dequeue tr = true.
Proof.
  unfold main_loop.
  apply (run_invariant drain_step none_ready
           (fun s tr => d_pc s = DrainDequeue /\ forallb is_dequeue tr = true)).
  - auto.
  - clear. intros s tr r s' e [Hpc Htr] _ Hstep Hok.
    unfold drain_step in Hstep. rewrite Hpc in Hstep.
    destruct r as [rc objs| |]; try discriminate.
    destruct (Z.eqb_spec rc 0) as [->|Hrc].
    + assert (e = EDequeue 0 objs) by congruence. subst e.
      cbn [none_ready] in Hok. contradiction.
    + injection Hstep as <- <-. rewrite forallb_app, Htr. auto.
Qed.

Lemma main_loop_cbr_idle (tsc_hz target : Z) (bufs0 : list mbuf)
    (rs : list response) (s : cbr_state) (tr : list event) :
  main_loop_cbr tsc_hz target bufs0 rs = Some (s, tr) ->
  Forall none_ready tr ->
  (c_pc s = CbrDequeue \/ c_pc s = CbrStamp /\ c_rc s <> 0) /\
  forallb (fun e => negb (is_tx e)) tr = true.
Proof.
  unfold main_loop_cbr.
  destruct (cbr_init tsc_hz target bufs0) as [s0|] eqn:E; [|discriminate].
  destruct (cbr_init_inv _ _ _ _ E) as (_ & Hpc0 & _).
  apply (run_invariant cbr_step none_ready
           (fun s tr => (c_pc s = CbrDequeue \/ c_pc s = CbrStamp /\ c_rc s <> 0) /\
                        forallb (fun e => negb (is_tx e)) tr = true)).
  - auto.
  - clear. intros s tr r s' e [Hpc Htr] _ Hstep Hok.
    unfold cbr_step in Hstep.
    destruct Hpc as [Hpc | [Hpc Hrc]]; rewrite Hpc in Hstep;
      destruct r as [rc objs|cur|n]; try discriminate.
    + injection Hstep as <- <-. cbn [none_ready] in Hok.
      rewrite forallb_app, Htr. cbn [c_pc c_rc]. auto.
    + apply Z.eqb_neq in Hrc. rewrite Hrc in Hstep.
      injection Hstep as <- <-. rewrite forallb_app, Htr. cbn [c_pc]. auto.
Qed.

(** C9. If every dequeue of a run reports "none ready" ([rc <> 0]),
    neither loop makes a transmit call: the drain loop stays at its
    dequeue and its trace consists of dequeues only; the paced loop
    alternates between its dequeue and the counter read of line 35 and
    never enters the busy-wait or the transmit call. *)
Theorem no_batch_no_transmit
    (tsc_hz target : Z) (bufs0 : list mbuf) (rs1 rs2 : list response)
    (s1 : drain_state) (tr1 : list event)
    (s2 : cbr_state) (tr2 : list event) :
  main_loop bufs0 rs1 = Some (s1, tr1) -> Forall none_ready tr1 ->
  main_loop_cbr tsc_hz target bufs0 rs2 = Some (s2, tr2) ->
  Forall none_ready tr2 ->
  (d_pc s1 = DrainDequeue /\ forallb is_dequeue tr1 = true /\
   forallb (fun e => negb (is_tx e)) tr1 = true) /\
  (c_pc s2 <> CbrSpin /\ c_pc s2 <> CbrTx /\
   forallb (fun e => negb (is_tx e)) tr2 = true).
Proof.
  intros H1 Hok1 H2 Hok2.
  destruct (main_loop_idle _ _ _ _ H1 Hok1) as [Hpc1 Hd].
  destruct (main_loop_cbr_idle _ _ _ _ _ _ H2 Hok2) as [Hpc2 Hn].
  splits; auto.
  - rewrite forallb_forall in *. intros e He. specialize (Hd e He).
    destruct e; try discriminate. reflexivity.
  - destruct Hpc2 as [-> | [-> _]]; discriminate.
  - destruct Hpc2 as [-> | [-> _]]; discriminate.
Qed.

Lemma no_batch_no_transmit_witness :
  exists s1 tr1 s2 tr2,
    main_loop [] [RDequeue 2 []; RDequeue 2 []; RDequeue 2 []] =
      Some (s1, tr1) /\
    main_loop_cbr 2000000000 1000 []
      [RDequeue 2 []; RTsc 1000; RDequeue 2 []; RTsc 900000000; RDequeue 2 []] =
      Some (s2, tr2) /\
    length tr1 = 3%nat /\ length tr2 = 5%nat /\
    forallb (fun e => negb (is_tx e)) tr1 = true /\
    forallb (fun e => negb (is_tx e)) tr2 = true.
Proof.
  eassert (E1 : main_loop [] [RDequeue 2 []; RDequeue 2 []; RDequeue 2 []] =
                Some (_, _)) by (vm_compute; reflexivity).
  eassert (E2 : main_loop_cbr 2000000000 1000 []
                  [RDequeue 2 []; RTsc 1000; RDequeue 2 []; RTsc 900000000;
                   RDequeue 2 []] = Some (_, _)) by (vm_compute; reflexivity).
  destruct (no_batch_no_transmit _ _ _ _ _ _ _ _ _ E1
              ltac:(repeat constructor; discriminate) E2
              ltac:(repeat constructor; discriminate))
    as ((_ & _ & Hn1) & (_ & _ & Hn2)).
  eexists _, _, _, _. split; [exact E1|]. split; [exact E2|].
  splits; auto.
Defined.

(** ** The accumulator [sent] stays within the batch *)

Lemma last_is_tx_snoc (tr : list event) (e : event) :
  last_is_tx (tr ++ [e]) -> is_tx e = true.
Proof.
  intros (tr' & off & k & pkts & n & H). apply app_inj_tail in H.
  destruct H as [_ ->]. reflexivity.
Qed.

Lemma main_loop_sent_bounds (bufs0 : list mbuf) (rs : list response)
    (s : drain_state) (tr : list event) :
  main_loop bufs0 rs = Some (s, tr) -> Forall tx_contract tr ->
  0 <= d_sent s <= batch_size /\
  (d_pc s = DrainTx -> d_sent s < batch_size) /\
  Forall tx_in_bounds tr /\
  (last_is_tx tr -> (d_pc s = DrainDequeue <-> d_sent s = batch_size)).
Proof.
  unfold main_loop.
  apply (run_invariant drain_step tx_contract
           (fun s tr =>
              0 <= d_sent s <= batch_size /\
              (d_pc s = DrainTx -> d_sent s < batch_size) /\
              Forall tx_in_bounds tr /\
              (last_is_tx tr ->
               (d_pc s = DrainDequeue <-> d_sent s = batch_size)))).
  - unfold drain_init, batch_size. cbn [d_sent d_pc]. splits; try lia.
    + constructor.
    + intros (tr' & off & k & pkts & n & H). destruct tr'; discriminate.
  - clear. intros s tr r s' e (Hr & Hlt & Hb & _) _ Hstep Hok.
    destruct s as [pc bufs sent]. cbn [d_pc d_sent d_bufs] in *.
    destruct pc, r; try (unfold drain_step in Hstep; discriminate).
    + (* line 18 *)
      unfold drain_step in Hstep. cbn [d_pc d_sent d_bufs] in Hstep.
      assert (Ee : e = EDequeue rc objs) by (destruct (rc =? 0); congruence).
      assert (Hs : 0 <= d_sent s' <= batch_size /\
                   (d_pc s' = DrainTx -> d_sent s' < batch_size)).
      { destruct (rc =? 0); injection Hstep as <- _;
          unfold drain_while, batch_size in *; cbn; split; try lia.
        discriminate. }
      destruct Hs as [Hs1 Hs2]. subst e. splits; auto; try lia.
      * apply Forall_app. split; [assumption|]. repeat constructor.
      * intros Hl. apply last_is_tx_snoc in Hl. discriminate.
    + (* line 22 *)
      specialize (Hlt eq_refl).
      rewrite drain_tx_step in Hstep by lia.
      assert (Es : s' = drain_while bufs (wrap32 (sent + nb_tx))) by congruence.
      assert (Ee : e = ETx sent (batch_size - sent)
                           (slice bufs sent (batch_size - sent)) nb_tx)
        by congruence.
      subst s' e. clear Hstep. unfold tx_contract in Hok.
      rewrite wrap32_small by (unfold batch_size in *; lia).
      assert (Hb' : Forall tx_in_bounds
                      (tr ++ [ETx sent (batch_size - sent)
                                  (slice bufs sent (batch_size - sent)) nb_tx])).
      { apply Forall_app. split; [assumption|]. constructor; [|constructor].
        unfold tx_in_bounds. lia. }
      unfold drain_while.
      destruct (Z.ltb_spec (sent + nb_tx) batch_size) as [Hlt'|Hge];
        cbn [d_pc d_sent]; splits; auto; try lia; try discriminate.
      * intros _. split; [discriminate | lia].
      * intros _. split; [lia | reflexivity].
Qed.

Lemma main_loop_cbr_sent_bounds (tsc_hz target : Z) (bufs0 : list mbuf)
    (rs : list response) (s : cbr_state) (tr : list event) :
  main_loop_cbr tsc_hz target bufs0 rs = Some (s, tr) ->
  Forall tx_contract tr ->
  0 <= c_sent s <= batch_size /\
  (c_pc s = CbrSpin \/ c_pc s = CbrTx -> c_sent s < batch_size) /\
  Forall tx_in_bounds tr /\
  (last_is_tx tr -> (c_pc s = CbrDequeue <-> c_sent s = batch_size)).
Proof.
  unfold main_loop_cbr.
  destruct (cbr_init tsc_hz target bufs0) as [s0|] eqn:E; [|discriminate].
  assert (H0 : c_pc s0 = CbrDequeue /\ c_sent s0 = 0).
  { unfold cbr_init in E. destruct (id_cycles_of tsc_hz target); [|discriminate].
    injection E as <-. auto. }
  destruct H0 as [Hpc0 Hsent0].
  apply (run_invariant cbr_step tx_contract
           (fun s tr =>
              0 <= c_sent s <= batch_size /\
              (c_pc s = CbrSpin \/ c_pc s = CbrTx -> c_sent s < batch_size) /\
              Forall tx_in_bounds tr /\
              (last_is_tx tr ->
               (c_pc s = CbrDequeue <-> c_sent s = batch_size)))).
  - rewrite Hpc0, Hsent0. unfold batch_size. splits; try lia.
    + constructor.
    + intros (tr' & off & k & pkts & n & H). destruct tr'; discriminate.
  - clear. intros s tr r s' e (Hr & Hlt & Hb & _) _ Hstep Hok.
    destruct s as [pc hz id ns rc cur bufs sent]. unfold cbr_step in Hstep.
    cbn [c_pc c_next_send c_id_cycles c_sent c_bufs c_rc c_tsc_hz c_cur] in *.
    destruct pc, r; try discriminate.
    + (* line 34 *)
      injection Hstep as <- <-. cbn [c_pc c_sent]. splits; auto; try lia.
      * intros [H|H]; discriminate.
      * apply Forall_app. split; [assumption|]. repeat constructor.
      * intros Hl. apply last_is_tx_snoc in Hl. discriminate.
    + (* lines 35-41 *)
      assert (Ee : e = ETsc cur0) by (destruct (rc =? 0); congruence).
      assert (Hs : 0 <= c_sent s' <= batch_size /\
                   (c_pc s' = CbrSpin \/ c_pc s' = CbrTx ->
                    c_sent s' < batch_size)).
      { destruct (rc =? 0); injection Hstep as <- _;
          unfold cbr_while, batch_size in *; cbn; split; try lia.
        intros [H|H]; discriminate. }
      destruct Hs as [Hs1 Hs2]. subst e. splits; auto; try lia.
      * apply Forall_app. split; [assumption|]. repeat constructor.
      * intros Hl. apply last_is_tx_snoc in Hl. discriminate.
    + (* lines 43-44 *)
      assert (Ee : e = ETsc cur0) by (destruct (cur0 <? ns); congruence).
      assert (Hs : c_sent s' = sent)
        by (destruct (cur0 <? ns); injection Hstep as <- _; reflexivity).
      subst e. rewrite Hs. splits; auto; try lia.
      * apply Forall_app. split; [assumption|]. repeat constructor.
      * intros Hl. apply last_is_tx_snoc in Hl. discriminate.
    + (* line 45 *)
      injection Hstep as <- <-. unfold tx_contract in Hok.
      assert (Hlt' : sent < batch_size) by auto.
      rewrite wrap32_small by (unfold batch_size in *; lia).
      assert (Hb' : Forall tx_in_bounds
                      (tr ++ [ETx sent 1 (slice bufs sent 1) nb_tx])).
      { apply Forall_app. split; [assumption|]. constructor; [|constructor].
        unfold tx_in_bounds. lia. }
      unfold cbr_while.
      destruct (Z.ltb_spec (sent + nb_tx) batch_size) as [Hlt''|Hge];
        cbn [c_pc c_sent]; splits; auto; try lia.
      * intros _. split; [discriminate | lia].
      * intros [H|H]; discriminate.
      * intros _. split; [lia | reflexivity].
Qed.

(** C10. Under the contract that the sink never reports more packets than
    it was offered, in both loops [sent] never exceeds [batch_size]; each
    transmit call is made at an offset [off >= 0] for a count
    [nb_pkts > 0] with [off + nb_pkts <= batch_size]; and after a
    transmit call the inner loop is left exactly when
    [sent = batch_size]. *)
Theorem sent_never_exceeds_batch
    (tsc_hz target : Z) (bufs0 : list mbuf) (rs1 rs2 : list response)
    (s1 : drain_state) (tr1 : list event)
    (s2 : cbr_state) (tr2 : list event) :
  main_loop bufs0 rs1 = Some (s1, tr1) -> Forall tx_contract tr1 ->
  main_loop_cbr tsc_hz target bufs0 rs2 = Some (s2, tr2) ->
  Forall tx_contract tr2 ->
  (0 <= d_sent s1 <= batch_size /\
   Forall tx_in_bounds tr1 /\
   (last_is_tx tr1 -> (d_pc s1 = DrainDequeue <-> d_sent s1 = batch_size))) /\
  (0 <= c_sent s2 <= batch_size /\
   Forall tx_in_bounds tr2 /\
   (last_is_tx tr2 -> (c_pc s2 = CbrDequeue <-> c_sent s2 = batch_size))).
Proof.
  intros H1 Hok1 H2 Hok2.
  destruct (main_loop_sent_bounds _ _ _ _ H1 Hok1) as (A1 & _ & A2 & A3).
  destruct (main_loop_cbr_sent_bounds _ _ _ _ _ _ H2 Hok2) as (B1 & _ & B2 & B3).
  auto.
Qed.

Lemma sent_never_exceeds_batch_witness :
  exists s1 tr1 s2 tr2,
    main_loop [] (RDequeue 0 example_batch :: map RTx [10; 0; 54]) =
      Some (s1, tr1) /\
    main_loop_cbr 2000000000 1000 [] (removelast example_full_batch) =
      Some (s2, tr2) /\
    d_sent s1 = batch_size /\ d_pc s1 = DrainDequeue /\
    c_sent s2 = batch_size /\ c_pc s2 = CbrDequeue /\
    Forall tx_in_bounds tr1 /\ Forall tx_in_bounds tr2.
Proof.
  eassert (E1 : main_loop [] (RDequeue 0 example_batch :: map RTx [10; 0; 54]) =
                Some (_, _)) by (vm_compute; reflexivity).
  eassert (E2 : main_loop_cbr 2000000000 1000 []
                  (removelast example_full_batch) = Some (_, _))
    by (vm_compute; reflexivity).
  destruct (sent_never_exceeds_batch _ _ _ _ _ _ _ _ _ E1
              ltac:(repeat constructor; cbv; intros; congruence) E2
              ltac:(repeat constructor; cbv; intros; congruence))
    as ((_ & Hb1 & _) & (_ & Hb2 & _)).
  eexists _, _, _, _. split; [exact E1|]. split; [exact E2|].
  splits; auto.
Defined.

(** ** The interval computation of line 30 *)

Lemma digits2_pos_bounds (p : positive) :
  2 ^ (Zpos (digits2_pos p) - 1) <= Zpos p < 2 ^ Zpos (digits2_pos p).
Proof.
  induction p as [p IH|p IH|]; cbn [digits2_pos].
  - rewrite Pos2Z.inj_succ, (Pos2Z.inj_xI p).
    replace (Z.succ (Zpos (digits2_pos p)) - 1)
      with (Z.succ (Zpos (digits2_pos p) - 1)) by lia.
    rewrite !Z.pow_succ_r by lia.
    generalize dependent (2 ^ (Zpos (digits2_pos p) - 1)).
    generalize dependent (2 ^ Zpos (digits2_pos p)). intros; lia.
  - rewrite Pos2Z.inj_succ, (Pos2Z.inj_xO p).
    replace (Z.succ (Zpos (digits2_pos p)) - 1)
      with (Z.succ (Zpos (digits2_pos p) - 1)) by lia.
    rewrite !Z.pow_succ_r by lia.
    generalize dependent (2 ^ (Zpos (digits2_pos p) - 1)).
    generalize dependent (2 ^ Zpos (digits2_pos p)). intros; lia.
  - cbn. lia.
Qed.

Lemma digits2_pos_unique (p : positive) (d : Z) :
  2 ^ (d - 1) <= Zpos p < 2 ^ d -> Zpos (digits2_pos p) = d.
Proof.
  intros [Hlo Hhi]. pose proof (digits2_pos_bounds p) as [Hlo' Hhi'].
  assert (Hd : 0 < d).
  { destruct (Z.lt_ge_cases 0 d) as [|Hneg]; [assumption|].
    assert (2 ^ d <= 2 ^ 0) by (destruct (Z.eq_dec d 0) as [->|];
      [lia | rewrite Z.pow_neg_r by lia; cbn; lia]).
    cbn in *. lia. }
  assert (d - 1 < Zpos (digits2_pos p)).
  { apply (Z.pow_lt_mono_r_iff 2); lia. }
  assert (Zpos (digits2_pos p) - 1 < d).
  { apply (Z.pow_lt_mono_r_iff 2); lia. }
  lia.
Qed.

Lemma fexp_normal (x : Z) : -1021 <= x -> fexp prec emax x = x - 53.
Proof. intros H. unfold fexp, emin, prec, emax. lia. Qed.

Lemma shr_m_of_loc (m : Z) (l : location) : shr_m (shr_record_of_loc m l) = m.
Proof. destruct l as [|[]]; reflexivity. Qed.

Lemma loc_of_shr_record_of_loc (m : Z) (l : location) :
  loc_of_shr_record (shr_record_of_loc m l) = l.
Proof. destruct l as [|[]]; reflexivity. Qed.

Lemma round_nearest_even_cases (m : Z) (l : location) :
  round_nearest_even m l = m \/ round_nearest_even m l = m + 1.
Proof.
  destruct l as [|[]]; cbn [round_nearest_even]; auto.
  destruct (Z.even m); auto.
Qed.

Lemma shr_1_m (p : positive) (r s : bool) :
  shr_m (shr_1 (Build_shr_record (Zpos p) r s)) = Zpos p / 2.
Proof.
  destruct p as [p|p|]; cbn [shr_1 shr_m].
  - rewrite (Pos2Z.inj_xI p). apply Z.div_unique with (r := 1); lia.
  - rewrite (Pos2Z.inj_xO p). apply Z.div_unique with (r := 0); lia.
  - reflexivity.
Qed.

Lemma shr_fexp_53 (p : positive) (e : Z) (l : location) :
  2 ^ 52 <= Zpos p < 2 ^ 53 -> -1074 <= e ->
  shr_fexp prec emax (Zpos p) e l = (shr_record_of_loc (Zpos p) l, e).
Proof.
  intros Hp He. unfold shr_fexp. cbn [Zdigits2].
  rewrite (digits2_pos_unique p 53) by exact Hp.
  rewrite fexp_normal by lia.
  replace (53 + e - 53 - e) with 0 by lia. reflexivity.
Qed.

Lemma shr_fexp_54 (p : positive) (e : Z) (l : location) :
  2 ^ 53 <= Zpos p < 2 ^ 54 -> -1074 <= e ->
  shr_fexp prec emax (Zpos p) e l =
  (shr_1 (shr_record_of_loc (Zpos p) l), e + 1).
Proof.
  intros Hp He. unfold shr_fexp. cbn [Zdigits2].
  rewrite (digits2_pos_unique p 54) by exact Hp.
  rewrite fexp_normal by lia.
  replace (54 + e - 53 - e) with 1 by lia. reflexivity.
Qed.

(** Rounding a 53-bit mantissa that is already in place: either it is
    kept, or it was rounded up to 2^53 and is renormalised. *)
Lemma round_in_place (m1 e : Z) :
  2 ^ 52 <= m1 <= 2 ^ 53 -> -1074 <= e <= 970 ->
  exists m k,
    (let '(mrs, e') := shr_fexp prec emax m1 e loc_Exact in
     match shr_m mrs with
     | Z0 => S754_zero false
     | Zpos m => if e' <=? emax - prec then S754_finite false m e'
                 else S754_infinity false
     | Zneg _ => S754_nan
     end) = S754_finite false m (e + k) /\
    0 <= k <= 1 /\ 2 ^ 52 <= Zpos m < 2 ^ 53 /\ Zpos m * 2 ^ k = m1.
Proof.
  intros Hm He. destruct m1 as [|p|p]; try lia.
  destruct (Z.eq_dec (Zpos p) (2 ^ 53)) as [Heq|Hne].
  - rewrite shr_fexp_54 by lia.
    assert (Hp : p = 9007199254740992%positive)
      by (apply Pos2Z.inj; rewrite Heq; reflexivity).
    subst p. cbn [shr_record_of_loc shr_1 shr_m].
    exists 4503599627370496%positive, 1. unfold emax, prec.
    destruct (Z.leb_spec (e + 1) (1024 - 53)); [|lia].
    repeat split; try lia; reflexivity.
  - rewrite shr_fexp_53 by lia. cbn [shr_record_of_loc shr_m].
    exists p, 0. unfold emax, prec.
    destruct (Z.leb_spec e (1024 - 53)); [|lia].
    rewrite Z.add_0_r. repeat split; lia.
Qed.

Lemma shr_1_of_loc_m (p : positive) (l : location) :
  shr_m (shr_1 (shr_record_of_loc (Zpos p) l)) = Zpos p / 2.
Proof. destruct l as [|[]]; apply shr_1_m. Qed.

(** The rounding step shared by all operations, on a positive mantissa
    of 53 or 54 bits in the normal exponent range: the result is a
    normal number [m * 2^(ex + k)] at most one unit in the last place
    away from every real in [[mx * 2^ex, (mx + 1) * 2^ex]]. *)
Lemma binary_round_aux_normal (mx : positive) (ex : Z) (lx : location) :
  2 ^ 52 <= Zpos mx < 2 ^ 54 -> -1074 <= ex <= 969 ->
  exists m k,
    binary_round_aux prec emax false (Zpos mx) ex lx =
      S754_finite false m (ex + k) /\
    0 <= k <= 2 /\
    2 ^ 52 <= Zpos m < 2 ^ 53 /\
    (Zpos m - 1) * 2 ^ k <= Zpos mx /\
    Zpos mx + 1 <= (Zpos m + 1) * 2 ^ k.
Proof.
  intros Hmx Hex. unfold binary_round_aux.
  destruct (Z.lt_ge_cases (Zpos mx) (2 ^ 53)) as [Hlt|Hge].
  - rewrite shr_fexp_53 by lia.
    rewrite shr_m_of_loc, loc_of_shr_record_of_loc.
    destruct (round_nearest_even_cases (Zpos mx) lx) as [-> | ->].
    + destruct (round_in_place (Zpos mx) ex) as (m & k & -> & Hk & Hm & Hv);
        try lia.
      exists m, k. repeat split; try lia.
      all: assert (k = 0 \/ k = 1) as [-> | ->] by lia; lia.
    + destruct (round_in_place (Zpos mx + 1) ex)
        as (m & k & -> & Hk & Hm & Hv); try lia.
      exists m, k. repeat split; try lia.
      all: assert (k = 0 \/ k = 1) as [-> | ->] by lia; lia.
  - rewrite shr_fexp_54 by lia. rewrite shr_1_of_loc_m.
    pose proof (Z.div_mod (Zpos mx) 2 ltac:(lia)) as Hdm.
    pose proof (Z.mod_pos_bound (Zpos mx) 2 ltac:(lia)) as Hmod.
    set (h := Zpos mx / 2) in *.
    destruct (round_nearest_even_cases h
                (loc_of_shr_record (shr_1 (shr_record_of_loc (Zpos mx) lx))))
      as [-> | ->].
    + destruct (round_in_place h (ex + 1)) as (m & k & -> & Hk & Hm & Hv);
        try lia.
      exists m, (1 + k). rewrite Z.add_assoc. repeat split; try lia.
      all: assert (k = 0 \/ k = 1) as [-> | ->] by lia; cbn [Z.add]; lia.
    + destruct (round_in_place (h + 1) (ex + 1))
        as (m & k & -> & Hk & Hm & Hv); try lia.
      exists m, (1 + k). rewrite Z.add_assoc. repeat split; try lia.
      all: assert (k = 0 \/ k = 1) as [-> | ->] by lia; cbn [Z.add]; lia.
Qed.

(** Division of two positive normal numbers whose quotient stays in the
    normal range: the result is normal and within one unit in the last
    place of the exact quotient, here written without division. *)
Lemma double_div_normal (m1 m2 : positive) (e1 e2 : Z) :
  2 ^ 52 <= Zpos m1 < 2 ^ 53 ->
  2 ^ 52 <= Zpos m2 < 2 ^ 53 ->
  -1021 <= e1 - e2 <= 1022 ->
  exists m k,
    double_div (S754_finite false m1 e1) (S754_finite false m2 e2) =
      S754_finite false m (e1 - e2 - 53 + k) /\
    0 <= k <= 2 /\
    2 ^ 52 <= Zpos m < 2 ^ 53 /\
    (Zpos m - 1) * 2 ^ k * Zpos m2 <= Zpos m1 * 2 ^ 53 /\
    Zpos m1 * 2 ^ 53 <= (Zpos m + 1) * 2 ^ k * Zpos m2.
Proof.
  intros H1 H2 He.
  unfold double_div, SFdiv, SFdiv_core_binary. cbn [xorb Zdigits2].
  rewrite (digits2_pos_unique m1 53), (digits2_pos_unique m2 53) by assumption.
  cbv zeta.
  replace (Z.min (fexp prec emax (53 + e1 - (53 + e2))) (e1 - e2))
    with (e1 - e2 - 53) by (rewrite fexp_normal by lia; lia).
  replace (e1 - e2 - (e1 - e2 - 53)) with 53 by lia.
  cbv beta iota. rewrite Z.shiftl_mul_pow2 by lia.
  pose proof (Z_div_mod (Zpos m1 * 2 ^ 53) (Zpos m2) ltac:(lia)) as Hdm.
  destruct (Z.div_eucl (Zpos m1 * 2 ^ 53) (Zpos m2)) as [q r].
  destruct Hdm as [Hq Hr].
  assert (Hqb : 2 ^ 52 <= q < 2 ^ 54) by nia.
  destruct q as [|mq|mq]; try lia.
  destruct (binary_round_aux_normal mq (e1 - e2 - 53)
              (new_location (Zpos m2) r))
    as (m & k & -> & Hk & Hm & Hlo & Hhi); try lia.
  exists m, k. repeat split; try lia; nia.
Qed.

Lemma binary_round_aux_exact (p : positive) (e : Z) :
  2 ^ 52 <= Zpos p < 2 ^ 53 -> -1074 <= e <= 971 ->
  binary_round_aux prec emax false (Zpos p) e loc_Exact = S754_finite false p e.
Proof.
  intros Hp He. unfold binary_round_aux.
  rewrite shr_fexp_53 by lia. cbn [shr_record_of_loc shr_m loc_of_shr_record].
  cbn [round_nearest_even]. rewrite shr_fexp_53 by lia.
  cbn [shr_record_of_loc shr_m]. unfold emax, prec.
  destruct (Z.leb_spec e (1024 - 53)); [reflexivity | lia].
Qed.

Lemma iter_xO_pow2 (p k : positive) :
  Zpos (Pos.iter xO p k) = Zpos p * 2 ^ Zpos k.
Proof.
  induction k as [|k IH] using Pos.peano_ind.
  - cbn [Pos.iter]. rewrite (Pos2Z.inj_xO p). change (2 ^ 1) with 2. lia.
  - rewrite Pos.iter_succ, (Pos2Z.inj_xO (Pos.iter xO p k)), IH.
    rewrite Pos2Z.inj_succ, Z.pow_succ_r by lia. lia.
Qed.

(** Conversion of a positive integer of [d <= 53] bits is exact: the
    mantissa is the integer shifted to 53 bits. *)
Lemma double_of_Z_exact (n d : Z) :
  1 <= d <= 53 -> 2 ^ (d - 1) <= n < 2 ^ d ->
  exists m,
    double_of_Z n = S754_finite false m (d - 53) /\
    Zpos m = n * 2 ^ (53 - d) /\
    2 ^ 52 <= Zpos m < 2 ^ 53.
Proof.
  intros Hd Hn.
  assert (Hpos : 0 < n) by (pose proof (Z.pow_pos_nonneg 2 (d - 1)); lia).
  destruct n as [|p|p]; try lia.
  unfold double_of_Z, binary_normalize, binary_round.
  rewrite (digits2_pos_unique p d) by exact Hn.
  rewrite fexp_normal by lia. unfold shl_align.
  assert (Hscale : 2 ^ 52 <= Zpos p * 2 ^ (53 - d) < 2 ^ 53).
  { assert (E1 : 2 ^ 52 = 2 ^ (d - 1) * 2 ^ (53 - d))
      by (rewrite <- Z.pow_add_r by lia; f_equal; lia).
    assert (E2 : 2 ^ 53 = 2 ^ d * 2 ^ (53 - d))
      by (rewrite <- Z.pow_add_r by lia; f_equal; lia).
    assert (HX : 0 < 2 ^ (53 - d)) by (apply Z.pow_pos_nonneg; lia).
    rewrite E1, E2. split.
    - apply Z.mul_le_mono_nonneg_r; lia.
    - apply Z.mul_lt_mono_pos_r; lia. }
  destruct (Z.eq_dec d 53) as [->|Hne].
  - cbn [Z.add Z.sub Z.opp Z.pos_sub Pos.succ Pos.pred_double Z.succ_double
         Z.pred_double Z.double].
    change (53 + 0 - 53 - 0) with 0. cbv iota.
    rewrite binary_round_aux_exact by (cbn in *; lia).
    exists p. change (53 - 53) with 0 in *. rewrite Z.mul_1_r in *.
    repeat split; lia.
  - replace (d + 0 - 53 - 0) with (Zneg (Z.to_pos (53 - d))) by lia.
    cbv iota.
    assert (Hm : Zpos (Pos.iter xO p (Z.to_pos (53 - d))) =
                 Zpos p * 2 ^ (53 - d)).
    { rewrite iter_xO_pow2. rewrite Z2Pos.id by lia. reflexivity. }
    rewrite binary_round_aux_exact by lia.
    replace (d + 0 - 53) with (d - 53) by lia.
    eexists. repeat split; try eassumption; lia.
Qed.

(** The error analysis of line 30, free of floating point: [mC / P]
    approximates [G / F] and [mR / S] approximates [t / (mC / P)], both
    within one unit in the last place of a 53-bit mantissa; then the
    integer part of [mR / S] is within one of that of [t * F / G]. *)
Lemma two_divisions_bound (G F t P S mC mR : Z) :
  0 < G -> 0 < F -> 0 < t -> 0 < P -> 0 < S ->
  2 ^ 52 <= mC -> 2 ^ 52 <= mR ->
  (mC - 1) * F <= G * P <= (mC + 1) * F ->
  (mR - 1) * mC <= t * P * S <= (mR + 1) * mC ->
  2 * (t * F / G) + 3 <= 2 ^ 52 ->
  t * F / G - 1 <= mR / S <= t * F / G + 1.
Proof.
  intros HG HF Ht HP HS HmC HmR [H1l H1u] [H2l H2u] Hsmall.
  set (M := 2 ^ 52) in *. assert (HM : 2 <= M) by (subst M; lia).
  set (w := t * F / G) in *.
  assert (Hw : w * G <= t * F < (w + 1) * G).
  { subst w. pose proof (Z.div_mod (t * F) G ltac:(lia)).
    pose proof (Z.mod_pos_bound (t * F) G ltac:(lia)). nia. }
  (* relative form of the two roundings *)
  assert (A1 : M * (G * P) <= (M + 1) * (mC * F)) by nia.
  assert (A2 : (M - 1) * (mC * F) <= M * (G * P)) by nia.
  assert (B1 : (M - 1) * (mR * mC) <= M * (t * P * S)) by nia.
  assert (B2 : M * (t * P * S) <= (M + 1) * (mR * mC)) by nia.
  (* combined: mR / S against t * F / G *)
  assert (C1 : (M - 1) * (mR * G) <= (M + 1) * (t * F * S)).
  { apply (Z.mul_le_mono_pos_r _ _ (M * P * mC)); [nia|].
    transitivity (M * (t * P * S) * ((M + 1) * (mC * F))).
    - transitivity ((M - 1) * (mR * mC) * (M * (G * P))); [nia|].
      apply Z.mul_le_mono_nonneg; nia.
    - nia. }
  assert (C2 : (M - 1) * (t * F * S) <= (M + 1) * (mR * G)).
  { apply (Z.mul_le_mono_pos_r _ _ (M * P * mC)); [nia|].
    transitivity ((M - 1) * (mC * F) * (M * (t * P * S))).
    - nia.
    - transitivity (M * (G * P) * ((M + 1) * (mR * mC))); [|nia].
      apply Z.mul_le_mono_nonneg; nia. }
  assert (D1 : mR < (w + 2) * S).
  { apply (Z.mul_lt_mono_pos_l ((M - 1) * G)); [nia|].
    apply Z.le_lt_trans with ((M + 1) * (t * F * S)); [nia|].
    apply Z.lt_le_trans with ((M + 1) * ((w + 1) * G * S)); [nia|].
    nia. }
  assert (D2 : (w - 1) * S <= mR).
  { apply (Z.mul_le_mono_pos_l _ _ ((M + 1) * G)); [nia|].
    transitivity ((M - 1) * (w * G * S)); [nia|].
    transitivity ((M - 1) * (t * F * S)); [nia|]. nia. }
  split.
  - apply Z.div_le_lower_bound; lia.
  - assert (mR / S < w + 2) by (apply Z.div_lt_upper_bound; lia). lia.
Qed.

Lemma bit_length (n b : Z) :
  0 < n < 2 ^ b -> 0 <= b ->
  exists d, 1 <= d <= b /\ 2 ^ (d - 1) <= n < 2 ^ d.
Proof.
  intros Hn Hb. exists (Z.log2 n + 1).
  pose proof (Z.log2_spec n ltac:(lia)) as Hs.
  pose proof (Z.log2_nonneg n).
  assert (Z.log2 n < b) by (apply Z.log2_lt_pow2; lia).
  replace (Z.log2 n + 1 - 1) with (Z.log2 n) by lia.
  replace (Z.log2 n + 1) with (Z.succ (Z.log2 n)) by lia. lia.
Qed.

Lemma billion_normal :
  billion = S754_finite false 8388608000000000 (-23).
Proof. reflexivity. Qed.

(** C1, amended. [id_cycles] is [target] divided by the length of one
    counter cycle in nanoseconds, [10^9 / tsc_hz], that is
    [target * tsc_hz / 10^9]: [target] is an interval in nanoseconds, not
    a rate.  For every counter frequency below 2^48 Hz and every 32-bit
    [target] the conversion is defined and, the two binary64 divisions
    and the final truncation taken together, lands within one cycle of
    the integer part of [target * tsc_hz / 10^9]. *)
Theorem id_cycles_is_target_ns_in_cycles (tsc_hz target : Z) :
  0 < tsc_hz < 2 ^ 48 -> 0 <= target < 2 ^ 32 ->
  exists id_cycles,
    id_cycles_of tsc_hz target = Some id_cycles /\
    target * tsc_hz / 10 ^ 9 - 1 <= id_cycles <= target * tsc_hz / 10 ^ 9 + 1.
Proof.
  intros HF Ht. unfold id_cycles_of.
  destruct (bit_length tsc_hz 48 HF ltac:(lia)) as (dF & HdF & HF2).
  destruct (double_of_Z_exact tsc_hz dF ltac:(lia) HF2) as (mF & -> & HmF & HmFb).
  rewrite billion_normal.
  destruct (double_div_normal 8388608000000000 mF (-23) (dF - 53))
    as (mC & kC & -> & HkC & HmC & HCl & HCu); try lia.
  destruct (Z.eq_dec target 0) as [->|Hne].
  - exists 0. split; [reflexivity|]. rewrite Z.mul_0_l. cbn. lia.
  - destruct (bit_length target 32 ltac:(lia) ltac:(lia)) as (dT & HdT & HT2).
    destruct (double_of_Z_exact target dT ltac:(lia) HT2)
      as (mT & -> & HmT & HmTb).
    destruct (double_div_normal mT mC (dT - 53) (-23 - (dF - 53) - 53 + kC))
      as (mR & kR & -> & HkR & HmR & HRl & HRu); try lia.
    cbn [uint64_of_double].
    set (eR := dT - 53 - (-23 - (dF - 53) - 53 + kC) - 53 + kR).
    assert (HeR : eR = - (83 - dT - dF + kC - kR)) by (subst eR; lia).
    rewrite Z.shiftl_div_pow2 by lia.
    rewrite HeR, Z.opp_involutive.
    set (nR := 83 - dT - dF + kC - kR) in *.
    set (nC := 23 + dF - kC).
    assert (HnR : 0 < nR) by (subst nR; lia).
    assert (HnC : 0 < nC) by (subst nC; lia).
    assert (HP : 0 < 2 ^ nC) by (apply Z.pow_pos_nonneg; lia).
    assert (HS : 0 < 2 ^ nR) by (apply Z.pow_pos_nonneg; lia).
    assert (HkCp : 0 < 2 ^ kC) by (apply Z.pow_pos_nonneg; lia).
    assert (HkRp : 0 < 2 ^ kR) by (apply Z.pow_pos_nonneg; lia).
    assert (HdFp : 0 < 2 ^ (53 - dF)) by (apply Z.pow_pos_nonneg; lia).
    assert (HdTp : 0 < 2 ^ (53 - dT)) by (apply Z.pow_pos_nonneg; lia).
    (* the two roundings, rescaled *)
    assert (E1 : 8388608000000000 * 2 ^ 53 =
                 10 ^ 9 * 2 ^ nC * (2 ^ kC * 2 ^ (53 - dF))).
    { change 8388608000000000 with (10 ^ 9 * 2 ^ 23).
      rewrite <- !Z.mul_assoc, <- !Z.pow_add_r by lia.
      do 2 f_equal. subst nC. lia. }
    assert (E2 : Zpos mT * 2 ^ 53 = target * 2 ^ nC * 2 ^ nR * 2 ^ kR).
    { rewrite HmT. rewrite <- !Z.mul_assoc, <- !Z.pow_add_r by lia.
      do 2 f_equal. subst nC nR. lia. }
    assert (R1 : (Zpos mC - 1) * tsc_hz <= 10 ^ 9 * 2 ^ nC
                 <= (Zpos mC + 1) * tsc_hz).
    { rewrite E1, HmF in HCl, HCu. split.
      - apply (Z.mul_le_mono_pos_r _ _ (2 ^ kC * 2 ^ (53 - dF))); nia.
      - apply (Z.mul_le_mono_pos_r _ _ (2 ^ kC * 2 ^ (53 - dF))); nia. }
    assert (R2 : (Zpos mR - 1) * Zpos mC <= target * 2 ^ nC * 2 ^ nR
                 <= (Zpos mR + 1) * Zpos mC).
    { rewrite E2 in HRl, HRu. split.
      - apply (Z.mul_le_mono_pos_r _ _ (2 ^ kR)); nia.
      - apply (Z.mul_le_mono_pos_r _ _ (2 ^ kR)); nia. }
    assert (Hw : target * tsc_hz / 10 ^ 9 < 2 ^ 51 - 2).
    { apply Z.div_lt_upper_bound; [lia|].
      assert (target * tsc_hz < 2 ^ 32 * 2 ^ 48) by nia. lia. }
    assert (Hw0 : 0 <= target * tsc_hz / 10 ^ 9)
      by (apply Z.div_pos; nia).
    pose proof (two_divisions_bound (10 ^ 9) tsc_hz target (2 ^ nC) (2 ^ nR)
                  (Zpos mC) (Zpos mR) ltac:(lia) ltac:(lia) ltac:(lia) HP HS
                  ltac:(lia) ltac:(lia) R1 R2 ltac:(lia)) as Hb.
    exists (Zpos mR / 2 ^ nR).
    destruct (Z.ltb_spec (Zpos mR / 2 ^ nR) (2 ^ 64)); [auto | lia].
Qed.

Lemma id_cycles_is_target_ns_in_cycles_witness :
  id_cycles_of 2000000000 1000 = Some 2000 /\
  exists id_cycles,
    id_cycles_of 2400000000 67 = Some id_cycles /\
    67 * 2400000000 / 10 ^ 9 - 1 <= id_cycles <= 67 * 2400000000 / 10 ^ 9 + 1.
Proof.
  split; [reflexivity|].
  apply (id_cycles_is_target_ns_in_cycles 2400000000 67); lia.
Defined.

(** C1 as stated does not hold: at 2 GHz and [target = 1000] the code
    computes 2000 cycles, whereas [tsc_hz / target] is 2000000. *)
Lemma id_cycles_not_hz_over_target : ~ interval_is_hz_over_target.
Proof.
  intros H.
  destruct (H 2000000000 1000 ltac:(lia) ltac:(lia)) as (id & Hid & Hb).
  vm_compute in Hid. injection Hid as <-.
  change (2000000000 / 1000) with 2000000 in Hb. lia.
Qed.

(** * Further properties of the two loops *)

(** ** Nothing is lost, duplicated or reordered *)

Lemma dequeued_app (tr1 tr2 : list event) :
  dequeued (tr1 ++ tr2) = dequeued tr1 ++ dequeued tr2.
Proof. unfold dequeued. apply flat_map_app. Qed.

Lemma skipn_split (bufs : list mbuf) (sent n : Z) :
  0 <= sent -> 0 <= n ->
  skipn (Z.to_nat sent) bufs =
  firstn (Z.to_nat n) (skipn (Z.to_nat sent) bufs) ++
  skipn (Z.to_nat (sent + n)) bufs.
Proof.
  intros Hs Hn.
  replace (Z.to_nat (sent + n)) with (Z.to_nat n + Z.to_nat sent)%nat by lia.
  rewrite <- skipn_skipn. symmetry. apply firstn_skipn.
Qed.

Lemma Forall_both {A : Type} (P Q : A -> Prop) (l : list A) :
  Forall P l -> Forall Q l -> Forall (fun x => P x /\ Q x) l.
Proof. intros HP HQ. apply Forall_and; assumption. Qed.

(** X1. Drain loop, whole run: with a sink that honours its contract and
    a ring that fills the array on success, the handles dequeued so far
    are, in order, the handles the sink has taken followed by the unsent
    rest of the current batch. *)
Theorem main_loop_fifo (bufs0 : list mbuf) (rs : list response)
    (s : drain_state) (tr : list event) :
  main_loop bufs0 rs = Some (s, tr) ->
  Forall tx_contract tr -> Forall ring_contract tr ->
  dequeued tr = accepted tr ++ drain_pending s.
Proof.
  intros Hrun Htx Hring. pose proof (Forall_both _ _ _ Htx Hring) as Hok.
  revert Hrun Hok. clear Htx Hring. unfold main_loop. intros Hrun Hok.
  apply (run_invariant drain_step
           (fun e => tx_contract e /\ ring_contract e)
           (fun s tr =>
              dequeued tr = accepted tr ++ drain_pending s /\
              (d_pc s = DrainTx ->
               0 <= d_sent s < batch_size /\
               Z.of_nat (length (d_bufs s)) = batch_size))
           (drain_init bufs0)) with (rs := rs) (tr := tr); auto.
  - split; [reflexivity | discriminate].
  - clear. intros s tr r s' e [IH Hin] _ Hstep [Htx Hring].
    rewrite dequeued_app, accepted_app, IH.
    destruct s as [pc bufs sent]. unfold drain_pending in *.
    cbn [d_pc d_sent d_bufs] in *.
    destruct pc, r as [rc objs|cur|n];
      try (unfold drain_step in Hstep; discriminate).
    + (* line 18 *)
      unfold drain_step in Hstep. cbn [d_pc d_sent d_bufs] in Hstep.
      assert (Ee : e = EDequeue rc objs) by (destruct (rc =? 0); congruence).
      subst e. cbn [dequeued accepted flat_map fetched taken ring_contract] in *.
      destruct (Z.eqb_spec rc 0) as [Hrc|Hrc]; injection Hstep as <-.
      * unfold drain_while, batch_size in *. cbn [Z.ltb Z.compare d_pc d_sent d_bufs].
        rewrite !app_nil_r. cbn [Z.to_nat skipn]. split; [reflexivity|].
        intros _. split; [lia | auto].
      * cbn [d_pc]. rewrite !app_nil_r. split; [reflexivity | discriminate].
    + (* line 22 *)
      destruct (Hin eq_refl) as [Hsent Hlen].
      rewrite drain_tx_step in Hstep by lia.
      assert (Es : s' = drain_while bufs (wrap32 (sent + n))) by congruence.
      assert (Ee : e = ETx sent (batch_size - sent)
                           (slice bufs sent (batch_size - sent)) n)
        by congruence.
      subst s' e. clear Hstep. unfold tx_contract in Htx.
      rewrite wrap32_small by (unfold batch_size in *; lia).
      cbn [dequeued accepted flat_map fetched taken]. rewrite !app_nil_r.
      rewrite slice_suffix by lia. rewrite <- app_assoc.
      unfold drain_while.
      destruct (Z.ltb_spec (sent + n) batch_size) as [Hlt|Hge];
        cbn [d_pc d_sent d_bufs].
      * split; [|intros _; split; [lia | assumption]].
        f_equal. apply skipn_split; lia.
      * split; [|discriminate]. f_equal. rewrite app_nil_r.
        rewrite (skipn_split bufs sent n) at 1 by lia.
        rewrite (skipn_all2 (n := Z.to_nat (sent + n))) by lia.
        apply app_nil_r.
Qed.

Lemma main_loop_fifo_witness :
  exists s tr,
    main_loop [] (RDequeue 0 example_batch :: map RTx [10; 0; 54] ++
                  [RDequeue 2 []; RDequeue 0 example_batch; RTx 7]) =
      Some (s, tr) /\
    dequeued tr = example_batch ++ example_batch /\
    accepted tr = example_batch ++ firstn 7 example_batch /\
    dequeued tr = accepted tr ++ drain_pending s.
Proof.
  eassert (E : main_loop [] (RDequeue 0 example_batch :: map RTx [10; 0; 54] ++
                             [RDequeue 2 []; RDequeue 0 example_batch; RTx 7]) =
               Some (_, _)) by (vm_compute; reflexivity).
  eexists _, _. split; [exact E|]. split; [reflexivity|].
  split; [reflexivity|].
  apply (main_loop_fifo _ _ _ _ E);
    repeat constructor; cbv; intros; congruence.
Defined.

(** X2. Paced loop, whole run: under the same contracts the paced loop is
    lossless too.  The handles dequeued so far are, in order, the handles
    the sink has taken followed by the rest of the current batch (all of
    it between the dequeue and the first attempt). *)
Theorem main_loop_cbr_fifo (tsc_hz target : Z) (bufs0 : list mbuf)
    (rs : list response) (s : cbr_state) (tr : list event) :
  main_loop_cbr tsc_hz target bufs0 rs = Some (s, tr) ->
  Forall tx_contract tr -> Forall ring_contract tr ->
  dequeued tr = accepted tr ++ cbr_pending s.
Proof.
  intros Hrun Htx Hring. pose proof (Forall_both _ _ _ Htx Hring) as Hok.
  revert Hrun Hok. clear Htx Hring. unfold main_loop_cbr.
  destruct (cbr_init tsc_hz target bufs0) as [s0|] eqn:E; [|discriminate].
  destruct (cbr_init_inv _ _ _ _ E) as (_ & Hpc0 & _).
  intros Hrun Hok.
  apply (run_invariant cbr_step
           (fun e => tx_contract e /\ ring_contract e)
           (fun s tr =>
              dequeued tr = accepted tr ++ cbr_pending s /\
              (c_pc s = CbrSpin \/ c_pc s = CbrTx ->
               0 <= c_sent s < batch_size /\
               Z.of_nat (length (c_bufs s)) = batch_size) /\
              (c_pc s = CbrStamp -> c_rc s = 0 ->
               Z.of_nat (length (c_bufs s)) = batch_size))
           s0) with (rs := rs) (tr := tr); auto.
  - unfold cbr_pending. rewrite Hpc0. splits; try reflexivity.
    + intros [H|H]; discriminate.
    + discriminate.
  - clear. intros s tr r s' e (IH & Hin & Hst) _ Hstep [Htx Hring].
    rewrite dequeued_app, accepted_app, IH.
    destruct s as [pc hz id ns rc cur bufs sent]. unfold cbr_pending in *.
    unfold cbr_step in Hstep.
    cbn [c_pc c_next_send c_id_cycles c_sent c_bufs c_rc c_tsc_hz c_cur] in *.
    destruct pc, r as [rc' objs|cur'|n]; try discriminate.
    + (* line 34 *)
      injection Hstep as <- <-. cbn [ring_contract] in Hring.
      cbn [c_pc c_rc c_bufs c_sent dequeued accepted flat_map fetched taken].
      rewrite !app_nil_r. splits.
      * destruct (rc' =? 0); reflexivity.
      * intros [H|H]; discriminate.
      * intros _ ->. cbn [Z.eqb]. auto.
    + (* lines 35-41 *)
      assert (Ee : e = ETsc cur') by (destruct (rc =? 0); congruence).
      subst e. cbn [dequeued accepted flat_map fetched taken].
      rewrite !app_nil_r.
      destruct (Z.eqb_spec rc 0) as [Hrc|Hrc]; injection Hstep as <-.
      * unfold cbr_while, batch_size in *.
        cbn [Z.ltb Z.compare c_pc c_sent c_bufs c_rc Z.to_nat skipn].
        splits; try reflexivity; try discriminate.
        intros _. split; [lia | auto].
      * cbn [c_pc]. splits; try reflexivity; try discriminate.
        intros [H|H]; discriminate.
    + (* lines 43-44 *)
      assert (Ee : e = ETsc cur') by (destruct (cur' <? ns); congruence).
      subst e. cbn [dequeued accepted flat_map fetched taken].
      rewrite !app_nil_r.
      destruct (cur' <? ns); injection Hstep as <-;
        cbn [c_pc c_sent c_bufs c_rc]; splits; try reflexivity;
        try discriminate; intros _; apply Hin; auto.
    + (* line 45 *)
      destruct (Hin (or_intror eq_refl)) as [Hsent Hlen].
      injection Hstep as <- <-. unfold tx_contract in Htx.
      rewrite wrap32_small by (unfold batch_size in *; lia).
      cbn [dequeued accepted flat_map fetched taken]. rewrite !app_nil_r.
      rewrite <- app_assoc.
      assert (Htaken : firstn (Z.to_nat n) (slice bufs sent 1) =
                       firstn (Z.to_nat n) (skipn (Z.to_nat sent) bufs)).
      { unfold slice. rewrite firstn_firstn. f_equal. lia. }
      rewrite Htaken. unfold cbr_while.
      destruct (Z.ltb_spec (sent + n) batch_size) as [Hlt|Hge];
        cbn [c_pc c_sent c_bufs c_rc].
      * splits; try discriminate.
        -- f_equal. apply skipn_split; lia.
        -- intros _. split; [lia | assumption].
      * splits; try discriminate; [|intros [H|H]; discriminate].
        f_equal. rewrite app_nil_r.
        rewrite (skipn_split bufs sent n) at 1 by lia.
        rewrite (skipn_all2 (n := Z.to_nat (sent + n))) by lia.
        apply app_nil_r.
Qed.

Lemma main_loop_cbr_fifo_witness :
  exists s tr,
    main_loop_cbr 2000000000 1000 []
      [RDequeue 0 example_batch; RTsc 100000000; RTsc 100000000; RTx 0;
       RTsc 100002000; RTx 1; RTsc 100004000; RTx 1] = Some (s, tr) /\
    accepted tr = [100; 101] /\
    dequeued tr = accepted tr ++ cbr_pending s.
Proof.
  eassert (E : main_loop_cbr 2000000000 1000 []
                 [RDequeue 0 example_batch; RTsc 100000000; RTsc 100000000;
                  RTx 0; RTsc 100002000; RTx 1; RTsc 100004000; RTx 1] =
               Some (_, _)) by (vm_compute; reflexivity).
  eexists _, _. split; [exact E|]. split; [reflexivity|].
  apply (main_loop_cbr_fifo _ _ _ _ _ _ E);
    repeat constructor; cbv; intros; congruence.
Defined.

(** ** Transmit calls stay inside the array whatever the sink reports *)

Lemma Forall_snoc {A : Type} (P : A -> Prop) (l : list A) (x : A) :
  Forall P l -> P x -> Forall P (l ++ [x]).
Proof. intros Hl Hx. apply Forall_app. split; [assumption | repeat constructor; assumption]. Qed.

Lemma main_loop_tx_shape (bufs0 : list mbuf) (rs : list response)
    (s : drain_state) (tr : list event) :
  main_loop bufs0 rs = Some (s, tr) ->
  (d_pc s = DrainTx -> 0 <= d_sent s < batch_size) /\
  Forall drain_tx_shape tr.
Proof.
  unfold main_loop. intros Hrun.
  apply (run_invariant drain_step (fun _ => True)
           (fun s tr => (d_pc s = DrainTx -> 0 <= d_sent s < batch_size) /\
                        Forall drain_tx_shape tr)
           (drain_init bufs0)) with (rs := rs) (tr := tr);
    auto using Forall_trivial.
  - split; [discriminate | constructor].
  - clear. intros s tr r s' e [Hin Hshape] _ Hstep _.
    destruct s as [pc bufs sent]. cbn [d_pc d_sent d_bufs] in *.
    destruct pc, r as [rc objs|cur|n];
      try (unfold drain_step in Hstep; discriminate).
    + unfold drain_step in Hstep. cbn [d_pc d_sent d_bufs] in Hstep.
      assert (Ee : e = EDequeue rc objs) by (destruct (rc =? 0); congruence).
      subst e. split; [|apply Forall_snoc; [assumption | exact I]].
      destruct (rc =? 0); injection Hstep as <-;
        unfold drain_while, batch_size; cbn; [lia | discriminate].
    + specialize (Hin eq_refl). rewrite drain_tx_step in Hstep by lia.
      assert (Es : s' = drain_while bufs (wrap32 (sent + n))) by congruence.
      assert (Ee : e = ETx sent (batch_size - sent)
                           (slice bufs sent (batch_size - sent)) n)
        by congruence.
      subst s' e. split.
      * pose proof (wrap32_range (sent + n)). unfold drain_while.
        destruct (Z.ltb_spec (wrap32 (sent + n)) batch_size);
          cbn [d_pc d_sent]; [lia | discriminate].
      * apply Forall_snoc; [assumption|]. unfold drain_tx_shape. lia.
Qed.

Lemma main_loop_cbr_tx_shape (tsc_hz target : Z) (bufs0 : list mbuf)
    (rs : list response) (s : cbr_state) (tr : list event) :
  main_loop_cbr tsc_hz target bufs0 rs = Some (s, tr) ->
  Forall cbr_tx_shape tr.
Proof.
  revert s tr. induction rs as [|r rs IH] using rev_ind; intros s tr Hrun.
  - destruct (main_loop_cbr_nil _ _ _ _ _ Hrun) as [_ ->]. constructor.
  - assert (Hpre : exists s1 tr1 e,
               main_loop_cbr tsc_hz target bufs0 rs = Some (s1, tr1) /\
               cbr_step s1 r = Some (s, e) /\ tr = tr1 ++ [e]).
    { unfold main_loop_cbr in *.
      destruct (cbr_init tsc_hz target bufs0) as [s0|]; [|discriminate].
      apply run_snoc. exact Hrun. }
    destruct Hpre as (s1 & tr1 & e & Hrun1 & Hstep & ->).
    apply Forall_snoc; [eapply IH; eassumption|].
    pose proof (main_loop_cbr_sent_range _ _ _ _ _ _ Hrun1) as Hsent.
    destruct s1 as [pc hz id ns rc cur bufs sent]. unfold cbr_step in Hstep.
    cbn [c_pc c_next_send c_id_cycles c_sent c_bufs c_rc c_tsc_hz c_cur] in *.
    destruct pc, r as [rc' objs|cur'|n]; try discriminate.
    + injection Hstep as _ <-. exact I.
    + assert (Ee : e = ETsc cur') by (destruct (rc =? 0); congruence).
      subst e. exact I.
    + assert (Ee : e = ETsc cur') by (destruct (cur' <? ns); congruence).
      subst e. exact I.
    + injection Hstep as _ <-. unfold cbr_tx_shape. split; [|reflexivity].
      apply Hsent. right. reflexivity.
Qed.

(** X3. Whatever the sink reports, even counts above what it was offered,
    every transmit call of the drain loop is made at an offset
    [0 <= off < batch_size] for [batch_size - off] packets, and every
    transmit call of the paced loop at such an offset for one packet:
    the loop test of lines 21 and 42 alone keeps the calls inside
    [bufs]. *)
Theorem tx_calls_stay_in_array
    (tsc_hz target : Z) (bufs0 : list mbuf) (rs1 rs2 : list response)
    (s1 : drain_state) (tr1 : list event)
    (s2 : cbr_state) (tr2 : list event) :
  main_loop bufs0 rs1 = Some (s1, tr1) ->
  main_loop_cbr tsc_hz target bufs0 rs2 = Some (s2, tr2) ->
  Forall drain_tx_shape tr1 /\ Forall cbr_tx_shape tr2.
Proof.
  intros H1 H2. split.
  - apply (main_loop_tx_shape _ _ _ _ H1).
  - apply (main_loop_cbr_tx_shape _ _ _ _ _ _ H2).
Qed.

Lemma tx_calls_stay_in_array_witness :
  exists s1 tr1 s2 tr2,
    main_loop [] [RDequeue 0 example_batch; RTx 60; RTx 4000] =
      Some (s1, tr1) /\
    main_loop_cbr 2000000000 1000 []
      [RDequeue 0 example_batch; RTsc 100000000; RTsc 100000000; RTx 63;
       RTsc 100002000; RTx 9] = Some (s2, tr2) /\
    d_sent s1 = 4060 /\ c_sent s2 = 72 /\
    Forall drain_tx_shape tr1 /\ Forall cbr_tx_shape tr2.
Proof.
  eassert (E1 : main_loop [] [RDequeue 0 example_batch; RTx 60; RTx 4000] =
                Some (_, _)) by (vm_compute; reflexivity).
  eassert (E2 : main_loop_cbr 2000000000 1000 []
                  [RDequeue 0 example_batch; RTsc 100000000; RTsc 100000000;
                   RTx 63; RTsc 100002000; RTx 9] = Some (_, _))
    by (vm_compute; reflexivity).
  eexists _, _, _, _. split; [exact E1|]. split; [exact E2|].
  split; [reflexivity|]. split; [reflexivity|].
  exact (tx_calls_stay_in_array _ _ _ _ _ _ _ _ _ E1 E2).
Defined.

(** ** A sink that accepts nothing *)

(** X4. Drain loop: while the sink reports 0 the loop makes no progress
    and never goes back to the ring.  From any reachable state of the
    inner loop, [n] further answers of 0 leave the state as it is and add
    [n] identical calls offering the same unsent suffix. *)
Theorem drain_stalls_while_sink_rejects (bufs0 : list mbuf)
    (rs : list response) (s : drain_state) (tr : list event) (n : nat) :
  main_loop bufs0 rs = Some (s, tr) ->
  d_pc s = DrainTx ->
  main_loop bufs0 (rs ++ repeat (RTx 0) n) =
  Some (s, tr ++ repeat (ETx (d_sent s) (batch_size - d_sent s)
                            (slice (d_bufs s) (d_sent s)
                                   (batch_size - d_sent s)) 0) n).
Proof.
  intros Hrun Hpc.
  destruct (main_loop_tx_shape _ _ _ _ Hrun) as [Hsent _].
  specialize (Hsent Hpc). unfold main_loop in *.
  eapply run_app_intro; [exact Hrun|]. clear Hrun.
  destruct s as [pc bufs sent]. cbn [d_pc d_sent d_bufs] in *. subst pc.
  induction n as [|n IH]; [reflexivity|].
  cbn [repeat run]. rewrite drain_tx_step by lia.
  rewrite Z.add_0_r, wrap32_small by (unfold batch_size in *; lia).
  unfold drain_while at 1.
  destruct (Z.ltb_spec sent batch_size) as [_|Hge]; [|lia].
  rewrite IH. reflexivity.
Qed.

Lemma drain_stalls_while_sink_rejects_witness :
  exists s tr,
    main_loop [] [RDequeue 0 example_batch; RTx 60] = Some (s, tr) /\
    main_loop [] ([RDequeue 0 example_batch; RTx 60] ++ repeat (RTx 0) 3) =
      Some (s, tr ++ repeat (ETx 60 4 [160; 161; 162; 163] 0) 3).
Proof.
  eassert (E : main_loop [] [RDequeue 0 example_batch; RTx 60] = Some (_, _))
    by (vm_compute; reflexivity).
  eexists _, _. split; [exact E|].
  exact (drain_stalls_while_sink_rejects _ _ _ _ 3 E eq_refl).
Defined.

(** ** Pacing inside a batch *)

Lemma cbr_dequeue_refuses_attempt (s : cbr_state) (a : list Z * Z)
    (rest : list response) :
  c_pc s = CbrDequeue -> run cbr_step s (attempt_answers a ++ rest) = None.
Proof.
  intros Hpc. destruct a as [[|c curs] n]; unfold attempt_answers;
    cbn [fst snd map app run]; unfold cbr_step; rewrite Hpc; reflexivity.
Qed.

(** X5. Consecutive transmit attempts of a batch are scheduled
    [id_cycles] apart.  Starting in the busy-wait with schedule
    [next_send], and as long as the schedule does not wrap around, the
    attempt number [i] (accepted or not) is made only after a counter
    read of at least [next_send + i * id_cycles], and after [k] attempts
    the schedule stands at [next_send + k * id_cycles]. *)
Theorem cbr_attempts_paced (attempts : list (list Z * Z)) :
  forall (s s' : cbr_state) (tr : list event),
    c_pc s = CbrSpin ->
    0 <= c_next_send s -> 0 <= c_id_cycles s ->
    c_next_send s + Z.of_nat (length attempts) * c_id_cycles s < 2 ^ 64 ->
    run cbr_step s (flat_map attempt_answers attempts) = Some (s', tr) ->
    c_next_send s' =
      c_next_send s + Z.of_nat (length attempts) * c_id_cycles s /\
    forall i curs nb_tx,
      nth_error attempts i = Some (curs, nb_tx) ->
      exists early cur,
        curs = early ++ [cur] /\
        c_next_send s + Z.of_nat i * c_id_cycles s <= cur.
Proof.
  induction attempts as [|[curs n] rest IH]; intros s s' tr Hpc Hns Hid Hfit Hrun.
  - cbn [flat_map run] in Hrun. injection Hrun as <- <-.
    cbn [length]. split; [lia|]. intros [|i] ? ? H; discriminate.
  - cbn [flat_map] in Hrun.
    destruct (run_app _ _ _ _ _ _ Hrun) as (s1 & tr1 & tr2 & H1 & H2 & ->).
    destruct (cbr_wait curs s n s1 tr1 Hpc H1)
      as (early & cur & Hcurs & _ & Hcur & _ & Hs1).
    cbn [length] in Hfit. rewrite Nat2Z.inj_succ in Hfit.
    assert (Hlen : 0 <= Z.of_nat (length rest)) by lia.
    assert (Hstep : wrap64 (c_next_send s + c_id_cycles s) =
                    c_next_send s + c_id_cycles s)
      by (apply wrap64_small; nia).
    assert (Hns1 : c_next_send s1 = c_next_send s + c_id_cycles s)
      by (rewrite Hs1; unfold cbr_while; cbn [c_next_send]; exact Hstep).
    assert (Hid1 : c_id_cycles s1 = c_id_cycles s)
      by (rewrite Hs1; reflexivity).
    destruct rest as [|a2 rest].
    + cbn [flat_map run] in H2. injection H2 as <- <-.
      cbn [length]. split; [lia|].
      intros [|[|i]] curs' n' H; try discriminate.
      injection H as <- <-. exists early, cur. split; [assumption | lia].
    + assert (Hpc1 : c_pc s1 = CbrSpin).
      { destruct (c_pc s1) eqn:E; try reflexivity.
        - cbn [flat_map] in H2.
          rewrite cbr_dequeue_refuses_attempt in H2 by exact E. discriminate.
        - rewrite Hs1 in E. unfold cbr_while in E. cbn [c_pc] in E.
          destruct (wrap32 (c_sent s + n) <? batch_size); discriminate.
        - rewrite Hs1 in E. unfold cbr_while in E. cbn [c_pc] in E.
          destruct (wrap32 (c_sent s + n) <? batch_size); discriminate. }
      assert (Hfit1 : c_next_send s1 +
                      Z.of_nat (length (a2 :: rest)) * c_id_cycles s1 < 2 ^ 64)
        by (rewrite Hns1, Hid1; lia).
      destruct (IH s1 s' tr2 Hpc1 ltac:(lia) ltac:(lia) Hfit1 H2)
        as [Hend Hall].
      rewrite Hns1, Hid1 in Hend. split.
      * rewrite Hend. cbn [length]. rewrite !Nat2Z.inj_succ. lia.
      * intros [|i] curs' n' H.
        -- injection H as <- <-. exists early, cur.
           split; [assumption | lia].
        -- destruct (Hall i curs' n' H) as (early' & cur' & Hc & Hb).
           exists early', cur'. split; [assumption|].
           rewrite Hns1, Hid1 in Hb. rewrite Nat2Z.inj_succ. lia.
Qed.

Lemma cbr_attempts_paced_witness :
  exists s tr0 s' tr,
    main_loop_cbr 2000000000 1000 [] [RDequeue 0 example_batch; RTsc 100000000] =
      Some (s, tr0) /\
    run cbr_step s
      (flat_map attempt_answers
         [([100000000], 1); ([100001000; 100002500], 0); ([100004000], 1)]) =
      Some (s', tr) /\
    c_next_send s = 100000000 /\ c_next_send s' = 100006000.
Proof.
  eassert (E : main_loop_cbr 2000000000 1000 []
                 [RDequeue 0 example_batch; RTsc 100000000] = Some (_, _))
    by (vm_compute; reflexivity).
  match type of E with
  | _ = Some (?s0, _) =>
      eassert (E1 : run cbr_step s0
                      (flat_map attempt_answers
                         [([100000000], 1); ([100001000; 100002500], 0);
                          ([100004000], 1)]) = Some (_, _))
        by (vm_compute; reflexivity);
      destruct (cbr_attempts_paced
                  [([100000000], 1); ([100001000; 100002500], 0);
                   ([100004000], 1)] s0 _ _ eq_refl
                  ltac:(cbn [c_next_send]; lia)
                  ltac:(cbn [c_id_cycles]; lia)
                  ltac:(cbn [c_next_send c_id_cycles length]; lia) E1)
        as [Hend _]
  end.
  eexists _, _, _, _. split; [exact E|]. split; [exact E1|].
  split; [reflexivity | exact Hend].
Defined.

(** ** Edge cases of the interval computation *)

(** X6. A counter frequency of 0 or a [target] of 0 makes [id_cycles] 0:
    the division by zero of line 30 is a floating-point one and yields
    an infinite cycle length, by which every [target] divides to 0; there
    is no trap and the cast is defined.  The paced loop then runs with an
    interval of zero cycles. *)
Theorem id_cycles_zero_without_rate (tsc_hz target : Z) :
  0 <= tsc_hz < 2 ^ 48 -> 0 <= target < 2 ^ 32 ->
  tsc_hz = 0 \/ target = 0 ->
  id_cycles_of tsc_hz target = Some 0.
Proof.
  intros HF Ht Hzero. unfold id_cycles_of.
  destruct (Z.eq_dec tsc_hz 0) as [->|HF0].
  - change (double_div billion (double_of_Z 0)) with (S754_infinity false).
    destruct (Z.eq_dec target 0) as [->|Ht0]; [reflexivity|].
    destruct (bit_length target 32 ltac:(lia) ltac:(lia)) as (dT & HdT & HT2).
    destruct (double_of_Z_exact target dT ltac:(lia) HT2) as (mT & -> & _).
    reflexivity.
  - assert (target = 0) by lia. subst target.
    destruct (bit_length tsc_hz 48 ltac:(lia) ltac:(lia)) as (dF & HdF & HF2).
    destruct (double_of_Z_exact tsc_hz dF ltac:(lia) HF2)
      as (mF & -> & HmF & HmFb).
    rewrite billion_normal.
    destruct (double_div_normal 8388608000000000 mF (-23) (dF - 53))
      as (mC & kC & -> & _); try lia.
    reflexivity.
Qed.

Lemma id_cycles_zero_without_rate_witness :
  id_cycles_of 0 1000 = Some 0 /\ id_cycles_of 2400000000 0 = Some 0.
Proof.
  split.
  - apply (id_cycles_zero_without_rate 0 1000); lia.
  - apply (id_cycles_zero_without_rate 2400000000 0); lia.
Defined.

Lemma double_div_unfold (m1 m2 : positive) (e1 e2 : Z) :
  2 ^ 52 <= Zpos m1 < 2 ^ 53 ->
  2 ^ 52 <= Zpos m2 < 2 ^ 53 ->
  -1021 <= e1 - e2 <= 1022 ->
  double_div (S754_finite false m1 e1) (S754_finite false m2 e2) =
  binary_round_aux prec emax false (Zpos m1 * 2 ^ 53 / Zpos m2)
    (e1 - e2 - 53)
    (new_location (Zpos m2) ((Zpos m1 * 2 ^ 53) mod Zpos m2)).
Proof.
  intros H1 H2 He.
  unfold double_div, SFdiv, SFdiv_core_binary. cbn [xorb Zdigits2].
  rewrite (digits2_pos_unique m1 53), (digits2_pos_unique m2 53) by assumption.
  cbv zeta.
  replace (Z.min (fexp prec emax (53 + e1 - (53 + e2))) (e1 - e2))
    with (e1 - e2 - 53) by (rewrite fexp_normal by lia; lia).
  replace (e1 - e2 - (e1 - e2 - 53)) with 53 by lia.
  cbv beta iota. rewrite Z.shiftl_mul_pow2 by lia.
  unfold Z.div, Z.modulo.
  destruct (Z.div_eucl (Zpos m1 * 2 ^ 53) (Zpos m2)) as [q r]. reflexivity.
Qed.

Lemma new_location_exact (nb : Z) : new_location nb 0 = loc_Exact.
Proof. unfold new_location. destruct (Z.even nb); reflexivity. Qed.

(** An exact 54-bit mantissa with a zero last bit loses that bit and
    nothing else. *)
Lemma binary_round_aux_even (p : positive) (e : Z) :
  2 ^ 52 <= Zpos p < 2 ^ 53 -> -1074 <= e <= 970 ->
  binary_round_aux prec emax false (Zpos p~0) e loc_Exact =
  S754_finite false p (e + 1).
Proof.
  intros Hp He. unfold binary_round_aux.
  rewrite shr_fexp_54 by (try rewrite (Pos2Z.inj_xO p); lia).
  cbn [shr_record_of_loc shr_1 shr_m loc_of_shr_record orb round_nearest_even].
  rewrite shr_fexp_53 by lia. cbn [shr_record_of_loc shr_m].
  unfold emax, prec.
  destruct (Z.leb_spec (e + 1) (1024 - 53)); [reflexivity | lia].
Qed.

(** X7. When the counter runs at [10^9 * 2^k] Hz (1, 2, 4, ... GHz) the
    interval computation is exact: one nanosecond is [2^k] cycles, both
    divisions are exact in binary64, and [id_cycles] is [target * 2^k]. *)
Theorem id_cycles_exact_at_binary_ghz (k target : Z) :
  0 <= k <= 18 -> 0 <= target < 2 ^ 32 ->
  id_cycles_of (10 ^ 9 * 2 ^ k) target = Some (target * 2 ^ k).
Proof.
  intros Hk Ht. unfold id_cycles_of.
  assert (H2k : 0 < 2 ^ k) by (apply Z.pow_pos_nonneg; lia).
  (* (double) tsc_hz *)
  assert (HF : 2 ^ (30 + k - 1) <= 10 ^ 9 * 2 ^ k < 2 ^ (30 + k)).
  { replace (30 + k - 1) with (29 + k) by lia.
    rewrite !Z.pow_add_r by lia. nia. }
  destruct (double_of_Z_exact (10 ^ 9 * 2 ^ k) (30 + k) ltac:(lia) HF)
    as (mF & -> & HmF & _).
  assert (EmF : mF = 8388608000000000%positive).
  { apply Pos2Z.inj. rewrite HmF.
    replace (53 - (30 + k)) with (23 - k) by lia.
    rewrite <- Z.mul_assoc, <- Z.pow_add_r by lia.
    replace (k + (23 - k)) with 23 by lia. reflexivity. }
  subst mF. clear HmF.
  (* 1000000000.0 / (double) tsc_hz = 2^-k *)
  rewrite billion_normal, double_div_unfold by lia.
  rewrite Z.mul_comm, Z.div_mul, Z.mod_mul by lia.
  rewrite new_location_exact.
  change (2 ^ 53) with (Zpos 4503599627370496~0).
  rewrite binary_round_aux_even by lia.
  destruct (Z.eq_dec target 0) as [->|Hne]; [reflexivity|].
  (* target / 2^-k *)
  destruct (bit_length target 32 ltac:(lia) ltac:(lia)) as (dT & HdT & HT2).
  destruct (double_of_Z_exact target dT ltac:(lia) HT2)
    as (mT & -> & HmT & HmTb).
  rewrite double_div_unfold by lia.
  assert (Hdouble : Zpos mT * 2 ^ 53 = Zpos mT~0 * Zpos 4503599627370496)
    by (rewrite (Pos2Z.inj_xO mT); lia).
  rewrite Hdouble, Z.div_mul, Z.mod_mul by lia.
  rewrite new_location_exact, binary_round_aux_even by lia.
  (* (uint64_t) *)
  cbn [uint64_of_double].
  rewrite Z.shiftl_div_pow2 by lia.
  replace (- (dT - 53 - (-23 - (30 + k - 53) - 53 + 1) - 53 + 1))
    with (53 - dT - k) by lia.
  assert (Hval : Zpos mT = target * 2 ^ k * 2 ^ (53 - dT - k)).
  { rewrite HmT, <- Z.mul_assoc, <- Z.pow_add_r by lia.
    do 2 f_equal. lia. }
  rewrite Hval, Z.div_mul
    by (apply Z.neq_sym, Z.lt_neq, Z.pow_pos_nonneg; lia).
  assert (Hsmall : target * 2 ^ k < 2 ^ 64).
  { assert (2 ^ k <= 2 ^ 18) by (apply Z.pow_le_mono_r; lia). nia. }
  destruct (Z.ltb_spec (target * 2 ^ k) (2 ^ 64)); [reflexivity | lia].
Qed.

Lemma id_cycles_exact_at_binary_ghz_witness :
  id_cycles_of 2000000000 12345 = Some 24690 /\
  id_cycles_of 4000000000 672 = Some 2688.
Proof.
  split.
  - apply (id_cycles_exact_at_binary_ghz 1 12345); lia.
  - apply (id_cycles_exact_at_binary_ghz 2 672); lia.
Defined.

(** ** The schedule at the start of a batch *)

Lemma stamp_schedule (hz ns cur : Z) :
  0 <= ns < 2 ^ 64 -> 0 <= cur < 2 ^ 64 -> 0 <= hz ->
  ns - cur < 2 ^ 64 - hz / 100 ->
  cur - hz / 100 <= (if idle_gap hz ns cur then cur else ns) <= cur.
Proof.
  intros Hns Hcur Hhz Hahead.
  assert (Hthr : 0 <= hz / 100) by (apply Z.div_pos; lia).
  unfold idle_gap.
  destruct (Z.ltb_spec (hz / 100) (wrap64 (cur - ns))) as [Hgap|Hnogap];
    [lia|].
  destruct (Z.lt_ge_cases cur ns) as [Hlt|Hge].
  - assert (Hw : wrap64 (cur - ns) = 2 ^ 64 - (ns - cur)).
    { unfold wrap64. symmetry. apply Z.mod_unique with (q := -1); lia. }
    lia.
  - rewrite wrap64_small in Hnogap by lia. lia.
Qed.

(** X8. After the correction of lines 37-39 the schedule is never in the
    future and never more than [tsc_hz / 100] cycles in the past: for
    64-bit values, and unless [next_send] was [2^64 - tsc_hz / 100]
    cycles or more ahead of the counter, the step leaves
    [cur - tsc_hz / 100 <= next_send <= cur].  At most 10 ms of backlog
    is ever carried into a batch. *)
Theorem schedule_after_correction (s : cbr_state) (cur : Z)
    (s' : cbr_state) (e : event) :
  c_pc s = CbrStamp ->
  0 <= c_next_send s < 2 ^ 64 -> 0 <= cur < 2 ^ 64 -> 0 <= c_tsc_hz s ->
  c_next_send s - cur < 2 ^ 64 - c_tsc_hz s / 100 ->
  cbr_step s (RTsc cur) = Some (s', e) ->
  cur - c_tsc_hz s / 100 <= c_next_send s' <= cur.
Proof.
  intros Hpc Hns Hcur Hhz Hahead Hstep.
  pose proof (stamp_schedule _ _ _ Hns Hcur Hhz Hahead) as Hb.
  unfold cbr_step in Hstep. rewrite Hpc in Hstep.
  destruct (c_rc s =? 0); injection Hstep as <- _; unfold cbr_while;
    cbn [c_next_send]; exact Hb.
Qed.

Lemma schedule_after_correction_witness :
  exists s tr s' e,
    main_loop_cbr 2000000000 1000 [] example_full_batch = Some (s, tr) /\
    cbr_step s (RTsc 100130000) = Some (s', e) /\
    c_next_send s' = 100128000 /\
    100130000 - 2000000000 / 100 <= c_next_send s' <= 100130000.
Proof.
  eassert (E : main_loop_cbr 2000000000 1000 [] example_full_batch =
               Some (_, _)) by (vm_compute; reflexivity).
  match type of E with
  | _ = Some (?s0, _) =>
      eassert (Es : cbr_step s0 (RTsc 100130000) = Some (_, _))
        by (vm_compute; reflexivity);
      pose proof (schedule_after_correction s0 100130000 _ _ eq_refl
                    ltac:(cbn [c_next_send]; lia) ltac:(lia)
                    ltac:(cbn [c_tsc_hz]; lia)
                    ltac:(cbv; reflexivity) Es) as Hb
  end.
  eexists _, _, _, _. split; [exact E|]. split; [exact Es|].
  split; [reflexivity | exact Hb].
Defined.


